(** * The command-line debugger of the ARM core (src/debugger/debugger.c)

    A shallow embedding of the argument parser [_DVParse], the command
    dispatcher [_parse], the command handlers, the breakpoint check and the
    run loop [ARMDebuggerRun], followed by the properties established about
    them.

    Conventions of the embedding.
    - A C string is the list of the characters that precede its terminating
      NUL; reading [string[0]] of the empty list yields NUL.
    - [uint32_t] and [int32_t] values are integers of [Z]; every conversion
      and every wrapping operation of the source is written out with
      [to_uint32] and [to_int32].
    - [size_t] is the 64-bit unsigned type of the LP64 targets the program
      is built for; its subtraction wraps.
    - A linked list of the source ([struct DebugVector], the breakpoint and
      watchpoint lists) is a Rocq list in pointer order, the null pointer
      being [nil].
    - Text written with [printf], and the calls that leave this translation
      unit, are recorded in order in a trace of events. *)

From Stdlib Require Import ZArith List Bool Ascii String Lia.
Import ListNotations.

Local Open Scope Z_scope.

(** ** Machine integers *)

Definition to_uint32 (z : Z) : Z := z mod 2 ^ 32.

Definition to_int32 (z : Z) : Z :=
  let u := to_uint32 z in
  if u <? 2 ^ 31 then u else u - 2 ^ 32.

Definition uint32_add (a b : Z) : Z := to_uint32 (a + b).
Definition uint32_mul (a b : Z) : Z := to_uint32 (a * b).

Definition SIZE_MODULUS : Z := 2 ^ 64.
Definition to_size_t (z : Z) : Z := z mod SIZE_MODULUS.
Definition size_sub (a b : Z) : Z := to_size_t (a - b).

Definition int32_range (z : Z) : Prop := - 2 ^ 31 <= z < 2 ^ 31.

(** ** C strings *)

Definition cstring := list ascii.

Definition NUL : ascii := Ascii.zero.

Definition cstr (s : string) : cstring := list_ascii_of_string s.

Definition char_code (c : ascii) : Z := Z.of_nat (nat_of_ascii c).

(** [s[0]]: the first character, NUL for the empty string. *)
Definition char_at0 (s : cstring) : ascii :=
  match s with
  | [] => NUL
  | c :: _ => c
  end.

(** [strlen]: the number of characters before the first NUL. *)
Fixpoint strlen (s : cstring) : Z :=
  match s with
  | [] => 0
  | c :: s' => if Ascii.eqb c NUL then 0 else 1 + strlen s'
  end.

(** [strchr(s, c)] for a non-NUL [c]: the offset of the first occurrence of
    [c] before the terminator, or [None] for the null pointer. *)
Fixpoint strchr (s : cstring) (c : ascii) : option nat :=
  match s with
  | [] => None
  | x :: s' =>
      if Ascii.eqb x NUL then None
      else if Ascii.eqb x c then Some O
      else option_map S (strchr s' c)
  end.

(** [tolower] in the C locale. *)
Definition tolower (c : ascii) : Z :=
  let n := char_code c in
  if (65 <=? n) && (n <=? 90) then n + 32 else n.

(** [strncasecmp(a, b, n)]: the difference of the first pair of characters
    that differ after case folding among the first [n], 0 when there is
    none or both strings end first. *)
Fixpoint strncasecmp (a b : cstring) (n : nat) : Z :=
  match n with
  | O => 0
  | S n' =>
      let ca := char_at0 a in
      let cb := char_at0 b in
      if tolower ca =? tolower cb then
        if Ascii.eqb ca NUL then 0
        else strncasecmp (tl a) (tl b) n'
      else tolower ca - tolower cb
  end.

(** ** The CPU as the debugger sees it (arm.h) *)

(** Modelled from the spec: the enumerators of [enum ExecutionMode] and the
    instruction widths [WORD_SIZE_ARM] and [WORD_SIZE_THUMB], declared in
    arm.h, which is not among the sources: 4 bytes in the wide encoding, 2
    in the compact one, selected by the T bit of the status register. *)
Inductive ExecutionMode := MODE_ARM | MODE_THUMB.

Definition WORD_SIZE_ARM : Z := 4.
Definition WORD_SIZE_THUMB : Z := 2.

(** Modelled from the spec: the named indices [ARM_SP], [ARM_LR] and
    [ARM_PC] of the register file, declared in arm.h, with the values of
    the architecture. *)
Definition ARM_SP : nat := 13.
Definition ARM_LR : nat := 14.
Definition ARM_PC : nat := 15.

(** Modelled from the spec: [union PSR] of arm.h, as far as this file
    reads it: the packed word and the flag bits printed by [_printPSR]. *)
Record PSR := {
  packed : Z;
  psr_n : bool; psr_z : bool; psr_c : bool; psr_v : bool;
  psr_i : bool; psr_f : bool; psr_t : bool
}.

(** The value of the pointer [cpu->memory]: the address of the debugger's
    own shim, [&debugger->memoryShim.d], or that of some other interface. *)
Inductive ARMMemoryPtr :=
| MEMORY_OTHER (id : nat)
| MEMORY_SHIM.

Definition ARMMemoryPtr_eqb (a b : ARMMemoryPtr) : bool :=
  match a, b with
  | MEMORY_SHIM, MEMORY_SHIM => true
  | MEMORY_OTHER x, MEMORY_OTHER y => Nat.eqb x y
  | _, _ => false
  end.

(** Modelled from the spec: [struct ARMCore] of arm.h, as far as this file
    reads it: the register file indexed 0 to 15, the status register and
    the pointer to the active memory interface. *)
Record ARMCore := {
  gprs : list Z;          (* int32_t gprs[16] *)
  cpsr : PSR;
  memory : ARMMemoryPtr
}.

Definition gpr (cpu : ARMCore) (r : nat) : Z := nth r (gprs cpu) 0.

Definition execution_mode (cpu : ARMCore) : ExecutionMode :=
  if psr_t (cpsr cpu) then MODE_THUMB else MODE_ARM.

(** ** The debugger (debugger.h) *)

(** Modelled from the spec: [enum DebuggerState] of debugger.h, which is
    not among the sources. *)
Inductive DebuggerState :=
| DEBUGGER_PAUSED
| DEBUGGER_RUNNING
| DEBUGGER_EXITING
| DEBUGGER_SHUTDOWN.

(** Modelled from the spec: the numeric order of the enumerators of
    [enum DebuggerState], which the guard of the run loop compares: the two
    active states come before Exiting, and Shutdown is last. *)
Definition state_value (s : DebuggerState) : Z :=
  match s with
  | DEBUGGER_PAUSED => 0
  | DEBUGGER_RUNNING => 1
  | DEBUGGER_EXITING => 2
  | DEBUGGER_SHUTDOWN => 3
  end.

(** Modelled from the spec: [struct DebugMemoryShim] and
    [struct ARMDebugger] of memory-debugger.h and debugger.h, as far as this
    file uses them.  A breakpoint or watchpoint record holds a 32-bit
    address, kept here as the [uint32_t] the handlers store; the editor and
    history handles are represented by the history they hold and by the
    input that is passed to the loops. *)
Record DebugMemoryShim := {
  watchpoints : list Z     (* addresses, head first *)
}.

Record ARMDebugger := {
  state : DebuggerState;
  cpu : ARMCore;
  breakpoints : list Z;    (* addresses, head first *)
  memoryShim : DebugMemoryShim;
  histate : list cstring   (* history entries, most recent first *)
}.

Definition set_state (d : ARMDebugger) (s : DebuggerState) : ARMDebugger :=
  {| state := s; cpu := cpu d; breakpoints := breakpoints d;
     memoryShim := memoryShim d; histate := histate d |}.

Definition set_cpu (d : ARMDebugger) (c : ARMCore) : ARMDebugger :=
  {| state := state d; cpu := c; breakpoints := breakpoints d;
     memoryShim := memoryShim d; histate := histate d |}.

Definition set_breakpoints (d : ARMDebugger) (l : list Z) : ARMDebugger :=
  {| state := state d; cpu := cpu d; breakpoints := l;
     memoryShim := memoryShim d; histate := histate d |}.

Definition set_watchpoints (d : ARMDebugger) (l : list Z) : ARMDebugger :=
  {| state := state d; cpu := cpu d; breakpoints := breakpoints d;
     memoryShim := {| watchpoints := l |}; histate := histate d |}.

Definition set_histate (d : ARMDebugger) (h : list cstring) : ARMDebugger :=
  {| state := state d; cpu := cpu d; breakpoints := breakpoints d;
     memoryShim := memoryShim d; histate := h |}.

Definition set_memory (d : ARMDebugger) (m : ARMMemoryPtr) : ARMDebugger :=
  set_cpu d {| gprs := gprs (cpu d); cpsr := cpsr (cpu d); memory := m |}.

(** ** Argument vectors *)

(** One node of [struct DebugVector]: its [type] tag and the member of the
    union that was written.  The node of an error carries no value: the
    storage of its union comes from [malloc] and is never assigned. *)
Inductive DebugVectorNode :=
| DV_ERROR
| DV_INT (intValue : Z)
| DV_CHAR (charValue : cstring).

Inductive DVType := ERROR_TYPE | INT_TYPE | CHAR_TYPE.

Definition dv_type (n : DebugVectorNode) : DVType :=
  match n with
  | DV_ERROR => ERROR_TYPE
  | DV_INT _ => INT_TYPE
  | DV_CHAR _ => CHAR_TYPE
  end.

Definition DebugVector := list DebugVectorNode.

(** ** The argument parser *)

Inductive _DVParseState :=
| PARSE_ERROR
| PARSE_ROOT
| PARSE_EXPECT_REGISTER
| PARSE_EXPECT_REGISTER_2
| PARSE_EXPECT_LR
| PARSE_EXPECT_PC
| PARSE_EXPECT_SP
| PARSE_EXPECT_DECIMAL
| PARSE_EXPECT_HEX
| PARSE_EXPECT_PREFIX
| PARSE_EXPECT_SUFFIX.

Definition is_PARSE_ERROR (s : _DVParseState) : bool :=
  match s with PARSE_ERROR => true | _ => false end.

Local Open Scope char_scope.

(** The body of the [switch (state)] of [_DVParse]: the state and the
    accumulator [current] after the character [token]. *)
Definition DVParse_switch (debugger : ARMDebugger) (state : _DVParseState)
    (token : ascii) (current : Z) : _DVParseState * Z :=
  match state with
  | PARSE_ROOT =>
      match token with
      | "r" => (PARSE_EXPECT_REGISTER, current)
      | "p" => (PARSE_EXPECT_PC, current)
      | "s" => (PARSE_EXPECT_SP, current)
      | "l" => (PARSE_EXPECT_LR, current)
      | "1" | "2" | "3" | "4" | "5" | "6" | "7" | "8" | "9" =>
          (PARSE_EXPECT_DECIMAL, to_uint32 (char_code token - char_code "0"))
      | "0" => (PARSE_EXPECT_PREFIX, current)
      | "$" => (PARSE_EXPECT_HEX, 0%Z)
      | _ => (PARSE_ERROR, current)
      end
  | PARSE_EXPECT_LR =>
      match token with
      | "r" => (PARSE_EXPECT_SUFFIX, to_uint32 (gpr (cpu debugger) ARM_LR))
      | _ => (PARSE_ERROR, current)
      end
  | PARSE_EXPECT_PC =>
      match token with
      | "c" => (PARSE_EXPECT_SUFFIX, to_uint32 (gpr (cpu debugger) ARM_PC))
      | _ => (PARSE_ERROR, current)
      end
  | PARSE_EXPECT_SP =>
      match token with
      | "p" => (PARSE_EXPECT_SUFFIX, to_uint32 (gpr (cpu debugger) ARM_SP))
      | _ => (PARSE_ERROR, current)
      end
  | PARSE_EXPECT_REGISTER =>
      match token with
      | "0" | "2" | "3" | "4" | "5" | "6" | "7" | "8" | "9" =>
          (PARSE_EXPECT_SUFFIX,
           to_uint32 (gpr (cpu debugger)
                        (Z.to_nat (char_code token - char_code "0"))))
      | "1" => (PARSE_EXPECT_REGISTER_2, current)
      | _ => (PARSE_ERROR, current)
      end
  | PARSE_EXPECT_REGISTER_2 =>
      match token with
      | "0" | "1" | "2" | "3" | "4" | "5" =>
          (PARSE_EXPECT_SUFFIX,
           to_uint32 (gpr (cpu debugger)
                        (Z.to_nat (char_code token - char_code "0" + 10))))
      | _ => (PARSE_ERROR, current)
      end
  | PARSE_EXPECT_DECIMAL =>
      match token with
      | "0" | "1" | "2" | "3" | "4" | "5" | "6" | "7" | "8" | "9" =>
          (PARSE_EXPECT_DECIMAL,
           uint32_add (uint32_mul current 10)
                      (char_code token - char_code "0"))
      | _ => (PARSE_ERROR, current)
      end
  | PARSE_EXPECT_HEX =>
      match token with
      | "0" | "1" | "2" | "3" | "4" | "5" | "6" | "7" | "8" | "9" =>
          (PARSE_EXPECT_HEX,
           uint32_add (uint32_mul current 16)
                      (char_code token - char_code "0"))
      | "A" | "B" | "C" | "D" | "E" | "F" =>
          (PARSE_EXPECT_HEX,
           uint32_add (uint32_mul current 16)
                      (char_code token - char_code "A" + 10))
      | "a" | "b" | "c" | "d" | "e" | "f" =>
          (PARSE_EXPECT_HEX,
           uint32_add (uint32_mul current 16)
                      (char_code token - char_code "a" + 10))
      | _ => (PARSE_ERROR, current)
      end
  | PARSE_EXPECT_PREFIX =>
      match token with
      | "X" | "x" => (PARSE_EXPECT_HEX, 0%Z)
      | _ => (PARSE_ERROR, current)
      end
  | PARSE_EXPECT_SUFFIX => (PARSE_ERROR, current)
  | PARSE_ERROR => (PARSE_ERROR, current)
  end.

(** The guard of the [while] loop of [_DVParse] on the character at the
    head of the string. *)
Definition DVParse_continue (token : ascii) (length : Z)
    (state : _DVParseState) : bool :=
  (0 <? length)%Z && negb (Ascii.eqb token NUL) && negb (Ascii.eqb token " ")
  && negb (is_PARSE_ERROR state).

(** [_DVParse] from the [while] loop on: the loop iterates on the string;
    when it exits the node is built and, on a separating space, the function
    calls itself on the rest with the entry test [length < 1] applied. *)
Fixpoint DVParse_loop (debugger : ARMDebugger) (string : cstring) (length : Z)
    (state : _DVParseState) (current : Z) {struct string} : DebugVector :=
  match string with
  | [] =>
      if is_PARSE_ERROR state then [DV_ERROR]
      else [DV_INT (to_int32 current)]
  | token :: string' =>
      if DVParse_continue token length state then
        let '(state', current') :=
          DVParse_switch debugger state token current in
        DVParse_loop debugger string' (length - 1) state' current'
      else if is_PARSE_ERROR state then [DV_ERROR]
      else
        DV_INT (to_int32 current) ::
        (if Ascii.eqb token " " then
           let length' := size_sub length 1 in
           if (length' <? 1)%Z then []
           else DVParse_loop debugger string' length' PARSE_ROOT 0%Z
         else [])
  end.

Definition _DVParse (debugger : ARMDebugger) (string : cstring) (length : Z)
    : DebugVector :=
  if (length <? 1)%Z then []
  else DVParse_loop debugger string length PARSE_ROOT 0%Z.

Local Close Scope char_scope.

(** ** Observable actions *)

(** An argument handed to [printf].  [A_indeterminate] is the content of
    storage that was never assigned an integer; [A_load m w a] is the value
    the memory interface [m] returned for a [w]-bit load at address [a]. *)
Inductive printf_arg :=
| A_int (z : Z)
| A_char (c : ascii)
| A_str (s : string)
| A_indeterminate
| A_load (m : ARMMemoryPtr) (width : Z) (address : Z).

(** [Printf] carries the format as it is written in the source. *)
Inductive event :=
| Printf (format : string) (args : list printf_arg)
| Call_ARMRun
| Call_ARMDebuggerInstallMemoryShim
| Raise_SIGTRAP.

Definition trace := list event.

Definition ERROR_MISSING_ARGS : string := "Arguments missing".

(** ** The line editor's history (libedit) *)

Definition H_SETSIZE : nat := 200.

(** [history(h, &ev, H_FIRST)]: the most recent entry, a negative result
    being [None]. *)
Definition history_first (h : list cstring) : option cstring :=
  match h with
  | [] => None
  | e :: _ => Some e
  end.

(** [history(h, &ev, H_ENTER, line)] under the size set at initialisation. *)
Definition history_enter (h : list cstring) (line : cstring) : list cstring :=
  firstn H_SETSIZE (line :: h).

(** [el_gets]: the next line of the input with its character count, or the
    null pointer at the end of the input. *)
Definition el_gets (input : list cstring)
    : option (cstring * Z * list cstring) :=
  match input with
  | [] => None
  | line :: rest => Some (line, Z.of_nat (List.length line), rest)
  end.

(** ** Breakpoints *)

Definition instruction_length (mode : ExecutionMode) : Z :=
  match mode with
  | MODE_ARM => WORD_SIZE_ARM
  | MODE_THUMB => WORD_SIZE_THUMB
  end.

(** The [for] loop of [_checkBreakpoints] from the record [breakpoint] on.
    The addition and the comparison are those of [uint32_t]. *)
Fixpoint checkBreakpoints_for (breakpoint : list Z) (instructionLength : Z)
    (debugger : ARMDebugger) : ARMDebugger * trace :=
  match breakpoint with
  | [] => (debugger, [])
  | address :: next =>
      if uint32_add address instructionLength
         =? to_uint32 (gpr (cpu debugger) ARM_PC)
      then (set_state debugger DEBUGGER_PAUSED, [Printf "Hit breakpoint\n" []])
      else checkBreakpoints_for next instructionLength debugger
  end.

Definition _checkBreakpoints (debugger : ARMDebugger) : ARMDebugger * trace :=
  let mode := execution_mode (cpu debugger) in
  let instructionLength := instruction_length mode in
  checkBreakpoints_for (breakpoints debugger) instructionLength debugger.

(** ** Command handlers *)

(** Modelled from the spec: [ARMDebuggerInstallMemoryShim] of
    memory-debugger.c, which is not among the sources: it swaps the CPU's
    active memory interface to the debugger's interception layer. *)
Definition ARMDebuggerInstallMemoryShim (debugger : ARMDebugger)
    : ARMDebugger * trace :=
  (set_memory debugger MEMORY_SHIM, [Call_ARMDebuggerInstallMemoryShim]).

Definition dv_head_is_int (dv : DebugVector) : bool :=
  match dv with
  | DV_INT _ :: _ => true
  | _ => false
  end.

(** [dv->intValue] as [printf] receives it. *)
Definition dv_intValue (n : DebugVectorNode) : printf_arg :=
  match n with
  | DV_INT v => A_int v
  | _ => A_indeterminate
  end.

Definition DebuggerCommand := ARMDebugger -> DebugVector -> ARMDebugger * trace.

Definition _printPSR (psr : PSR) : trace :=
  let flag (b : bool) (c : ascii) := A_char (if b then c else "-"%char) in
  [Printf "%08X [%c%c%c%c%c%c%c]\n"
     [A_int (packed psr);
      flag (psr_n psr) "N"%char; flag (psr_z psr) "Z"%char;
      flag (psr_c psr) "C"%char; flag (psr_v psr) "V"%char;
      flag (psr_i psr) "I"%char; flag (psr_f psr) "F"%char;
      flag (psr_t psr) "T"%char]].

Definition _printLine (debugger : ARMDebugger) (address : Z)
    (mode : ExecutionMode) : trace :=
  match mode with
  | MODE_ARM =>
      [Printf "%08X\n" [A_load (memory (cpu debugger)) 32 address]]
  | MODE_THUMB =>
      [Printf "%04X\n" [A_load (memory (cpu debugger)) 16 address]]
  end.

Definition _printStatus : DebuggerCommand := fun debugger dv =>
  let row (r : nat) :=
    Printf "%08X %08X %08X %08X\n"
      [A_int (gpr (cpu debugger) (4 * r));
       A_int (gpr (cpu debugger) (4 * r + 1));
       A_int (gpr (cpu debugger) (4 * r + 2));
       A_int (gpr (cpu debugger) (4 * r + 3))] in
  let mode := execution_mode (cpu debugger) in
  let instructionLength := instruction_length mode in
  (debugger,
   map row [0; 1; 2; 3]%nat
   ++ _printPSR (cpsr (cpu debugger))
   ++ _printLine debugger
        (to_uint32 (gpr (cpu debugger) ARM_PC - instructionLength)) mode).

Definition _breakInto : DebuggerCommand := fun debugger dv =>
  (debugger, [Raise_SIGTRAP]).

Definition _continue : DebuggerCommand := fun debugger dv =>
  (set_state debugger DEBUGGER_RUNNING, []).

Definition _print : DebuggerCommand := fun debugger dv =>
  (debugger,
   map (fun n => Printf " %u" [dv_intValue n]) dv ++ [Printf "\n" []]).

Definition _printHex : DebuggerCommand := fun debugger dv =>
  (debugger,
   map (fun n => Printf " 0x%08X" [dv_intValue n]) dv ++ [Printf "\n" []]).

Definition _quit : DebuggerCommand := fun debugger dv =>
  (set_state debugger DEBUGGER_SHUTDOWN, []).

Definition read_memory (width : Z) (format : string) : DebuggerCommand :=
  fun debugger dv =>
  match dv with
  | DV_INT intValue :: _ =>
      let address := to_uint32 intValue in
      (debugger, [Printf format [A_load (memory (cpu debugger)) width address]])
  | _ => (debugger, [Printf "%s\n" [A_str ERROR_MISSING_ARGS]])
  end.

Definition _readByte : DebuggerCommand := read_memory 8 " 0x%02X\n".
Definition _readHalfword : DebuggerCommand := read_memory 16 " 0x%04X\n".
Definition _readWord : DebuggerCommand := read_memory 32 " 0x%08X\n".

Definition _setBreakpoint : DebuggerCommand := fun debugger dv =>
  match dv with
  | DV_INT intValue :: _ =>
      let address := to_uint32 intValue in
      (set_breakpoints debugger (address :: breakpoints debugger), [])
  | _ => (debugger, [Printf "%s\n" [A_str ERROR_MISSING_ARGS]])
  end.

Definition _setWatchpoint : DebuggerCommand := fun debugger dv =>
  match dv with
  | DV_INT intValue :: _ =>
      let address := to_uint32 intValue in
      let '(debugger1, t) :=
        if negb (ARMMemoryPtr_eqb (memory (cpu debugger)) MEMORY_SHIM)
        then ARMDebuggerInstallMemoryShim debugger
        else (debugger, []) in
      (set_watchpoints debugger1
         (address :: watchpoints (memoryShim debugger1)), t)
  | _ => (debugger, [Printf "%s\n" [A_str ERROR_MISSING_ARGS]])
  end.

Section Debugger.

(** The instruction-execution engine, [ARMRun] of arm.c: one step of the
    core.  What it computes is outside this translation unit; the model
    is sequential, so the state of the debugger changes only where this
    file assigns it. *)
Variable ARMRun : ARMCore -> ARMCore.

Definition _next : DebuggerCommand := fun debugger dv =>
  let debugger1 := set_cpu debugger (ARMRun (cpu debugger)) in
  let '(debugger2, t) := _printStatus debugger1 [] in
  (debugger2, Call_ARMRun :: t).

(** ** The command table and the dispatcher *)

Definition _debuggerCommands : list (string * DebuggerCommand) :=
  [ ("b", _setBreakpoint);
    ("break", _setBreakpoint);
    ("c", _continue);
    ("continue", _continue);
    ("i", _printStatus);
    ("info", _printStatus);
    ("n", _next);
    ("next", _next);
    ("p", _print);
    ("p/x", _printHex);
    ("print", _print);
    ("print/x", _printHex);
    ("q", _quit);
    ("quit", _quit);
    ("rb", _readByte);
    ("rh", _readHalfword);
    ("rw", _readWord);
    ("status", _printStatus);
    ("w", _setWatchpoint);
    ("watch", _setWatchpoint);
    ("x", _breakInto) ]%string.

(** The [for] loop of [_parse] over the table from the given entry on: the
    handler of the first entry whose name has the length [cmdLength] and
    equals the start of the line up to case. *)
Fixpoint find_command (table : list (string * DebuggerCommand))
    (line : cstring) (cmdLength : Z) : option DebuggerCommand :=
  match table with
  | [] => None
  | (name, command) :: table' =>
      if negb (strlen (cstr name) =? cmdLength) then
        find_command table' line cmdLength
      else if strncasecmp (cstr name) line (Z.to_nat cmdLength) =? 0 then
        Some command
      else find_command table' line cmdLength
  end.

(** [_parse] after the arguments have been parsed. *)
Definition dispatch (debugger : ARMDebugger) (line : cstring) (cmdLength : Z)
    (dv : DebugVector) : Z * ARMDebugger * trace :=
  match find_command _debuggerCommands line cmdLength with
  | Some command =>
      let '(debugger', t) := command debugger dv in
      (1, debugger', t)
  | None => (0, debugger, [Printf "Command not found\n" []])
  end.

Definition dv_head_is_error (dv : DebugVector) : bool :=
  match dv with
  | DV_ERROR :: _ => true
  | _ => false
  end.

Definition _parse (debugger : ARMDebugger) (line : cstring) (count : Z)
    : Z * ARMDebugger * trace :=
  match strchr line " "%char with
  | Some firstSpace =>
      let cmdLength := Z.of_nat firstSpace in
      let dv :=
        _DVParse debugger (skipn (S firstSpace) line)
          (size_sub (size_sub count cmdLength) 1) in
      if dv_head_is_error dv then (0, debugger, [Printf "Parse error\n" []])
      else dispatch debugger line cmdLength dv
  | None => dispatch debugger line count []
  end.

(** ** The read-eval-print loop *)

Definition LF : ascii := "010"%char.

(** One pass of the loop of [_commandLine] once [el_gets] has returned the
    line [line] of [count] characters. *)
Definition commandLine_body (debugger : ARMDebugger) (line : cstring)
    (count : Z) : ARMDebugger * trace :=
  if Ascii.eqb (char_at0 line) LF then
    match history_first (histate debugger) with
    | Some str =>
        let '(_, debugger', t) :=
          _parse debugger str (size_sub (strlen str) 1) in
        (debugger', t)
    | None => (debugger, [])
    end
  else
    let '(r, debugger', t) := _parse debugger line (to_size_t (count - 1)) in
    if negb (r =? 0) then
      (set_histate debugger' (history_enter (histate debugger') line), t)
    else (debugger', t).

(** The loop of [_commandLine] on the pending input lines, with the call
    of [el_gets] written as the case analysis it performs so that the
    recursion is structural. *)
Fixpoint commandLine_while (input : list cstring) (debugger : ARMDebugger)
    {struct input} : list cstring * ARMDebugger * trace :=
  match state debugger with
  | DEBUGGER_PAUSED =>
      match input with
      | [] => ([], set_state debugger DEBUGGER_EXITING, [])
      | line :: input' =>
          let count := Z.of_nat (List.length line) in
          let '(debugger1, t1) := commandLine_body debugger line count in
          let '(input2, debugger2, t2) :=
            commandLine_while input' debugger1 in
          (input2, debugger2, t1 ++ t2)
      end
  | _ => (input, debugger, [])
  end.

Definition _commandLine (input : list cstring) (debugger : ARMDebugger)
    : list cstring * ARMDebugger * trace :=
  let '(_, t0) := _printStatus debugger [] in
  let '(input', debugger', t) := commandLine_while input debugger in
  (input', debugger', t0 ++ t).

(** ** Tab completion *)

(** What [_tabComplete] returns to the line editor: one of its two status
    codes, [CC_REDISPLAY] with the strings handed to [el_insertstr] in
    order, or no defined behaviour when the scan has left the table. *)
Inductive tab_result :=
| CC_ERROR
| CC_REDISPLAY (inserted : list cstring)
| TAB_OUT_OF_TABLE.

(** The inner [for] loop of [_tabComplete] over the entries from index
    [cmd] on, given by their names: [None] when it returns [CC_ERROR],
    otherwise the entries from the index it stops at, none when it stops at
    the terminating entry, whose name is null. *)
Fixpoint tabComplete_inner (names : list string) (buffer : cstring)
    (len : nat) : option (list string) :=
  match names with
  | [] => Some []
  | name :: names' =>
      let cmp := strncasecmp (cstr name) buffer len in
      if cmp >? 0 then None
      else if cmp =? 0 then Some names
      else tabComplete_inner names' buffer len
  end.

(** The outer [for] loop, for the given number of passes, [len] growing by
    one in each. *)
Fixpoint tabComplete_outer (passes : nat) (names : list string)
    (buffer : cstring) (len : nat) : option (list string * nat) :=
  match passes with
  | O => Some (names, len)
  | S passes' =>
      match tabComplete_inner names buffer len with
      | None => None
      | Some names' => tabComplete_outer passes' names' buffer (S len)
      end
  end.

(** [_tabComplete] on the text between [li->buffer] and [li->cursor]: the
    outer loop makes one pass for each position from the start of the
    buffer to the cursor included.  When the scan has stopped at the
    terminating entry, [_debuggerCommands[cmd + 1]] lies outside the array
    and [name] is null; when [len - 1] exceeds the length of the name,
    [name + len - 1] points outside the string. *)
Definition _tabComplete (buffer : cstring) : tab_result :=
  match
    tabComplete_outer (S (List.length buffer)) (map fst _debuggerCommands)
      buffer 0
  with
  | None => CC_ERROR
  | Some (names, len) =>
      match names with
      | [] => TAB_OUT_OF_TABLE
      | name :: next =>
          let next_matches :=
            match next with
            | name' :: _ => strncasecmp (cstr name') buffer (len - 1) =? 0
            | [] => false
            end in
          if next_matches then CC_ERROR
          else if (Z.of_nat (len - 1) <=? strlen (cstr name))%Z then
            CC_REDISPLAY [skipn (len - 1) (cstr name); cstr " "]
          else TAB_OUT_OF_TABLE
      end
  end.

(** ** The run loop *)

(** [while (state == DEBUGGER_RUNNING) ARMRun(cpu);] for at most [fuel]
    steps; [None] when the loop is still running after them. *)
Fixpoint run_free (fuel : nat) (debugger : ARMDebugger)
    : option (ARMDebugger * trace) :=
  match state debugger with
  | DEBUGGER_RUNNING =>
      match fuel with
      | O => None
      | S fuel' =>
          let debugger1 := set_cpu debugger (ARMRun (cpu debugger)) in
          match run_free fuel' debugger1 with
          | Some (debugger2, t) => Some (debugger2, Call_ARMRun :: t)
          | None => None
          end
      end
  | _ => Some (debugger, [])
  end.

(** One pass of the loop that checks breakpoints. *)
Definition run_checked_body (debugger : ARMDebugger) : ARMDebugger * trace :=
  let debugger1 := set_cpu debugger (ARMRun (cpu debugger)) in
  let '(debugger2, t) := _checkBreakpoints debugger1 in
  (debugger2, Call_ARMRun :: t).

(** [while (state == DEBUGGER_RUNNING) { ARMRun(cpu); _checkBreakpoints(); }]
    for at most [fuel] steps. *)
Fixpoint run_checked (fuel : nat) (debugger : ARMDebugger)
    : option (ARMDebugger * trace) :=
  match state debugger with
  | DEBUGGER_RUNNING =>
      match fuel with
      | O => None
      | S fuel' =>
          let '(debugger1, t1) := run_checked_body debugger in
          match run_checked fuel' debugger1 with
          | Some (debugger2, t2) => Some (debugger2, t1 ++ t2)
          | None => None
          end
      end
  | _ => Some (debugger, [])
  end.

(** The inner loop of [ARMDebuggerRun]: the checking variant is taken when
    the breakpoint list is not empty. *)
Definition run_inner (fuel : nat) (debugger : ARMDebugger)
    : option (ARMDebugger * trace) :=
  match breakpoints debugger with
  | [] => run_free fuel debugger
  | _ :: _ => run_checked fuel debugger
  end.

(** The guard of the outer loop of [ARMDebuggerRun]. *)
Definition run_guard (debugger : ARMDebugger) : bool :=
  state_value (state debugger) <? state_value DEBUGGER_EXITING.

(** The outer loop of [ARMDebuggerRun], for at most [fuel] passes, each
    inner loop having the fuel that is left. *)
Fixpoint ARMDebuggerRun_while (fuel : nat) (input : list cstring)
    (debugger : ARMDebugger) : option (list cstring * ARMDebugger * trace) :=
  if run_guard debugger then
    match fuel with
    | O => None
    | S fuel' =>
        match run_inner fuel' debugger with
        | None => None
        | Some (debugger1, t1) =>
            match state debugger1 with
            | DEBUGGER_RUNNING =>
                match ARMDebuggerRun_while fuel' input debugger1 with
                | Some (input3, debugger3, t3) =>
                    Some (input3, debugger3, t1 ++ t3)
                | None => None
                end
            | DEBUGGER_PAUSED =>
                let '(input2, debugger2, t2) := _commandLine input debugger1 in
                match ARMDebuggerRun_while fuel' input2 debugger2 with
                | Some (input3, debugger3, t3) =>
                    Some (input3, debugger3, t1 ++ t2 ++ t3)
                | None => None
                end
            | DEBUGGER_EXITING | DEBUGGER_SHUTDOWN =>
                Some (input, debugger1, t1)
            end
        end
    end
  else Some (input, debugger, []).

Definition ARMDebuggerRun (fuel : nat) (input : list cstring)
    (debugger : ARMDebugger) : option (list cstring * ARMDebugger * trace) :=
  let debugger1 :=
    match state debugger with
    | DEBUGGER_EXITING => set_state debugger DEBUGGER_RUNNING
    | _ => debugger
    end in
  ARMDebuggerRun_while fuel input debugger1.

Definition ARMDebuggerEnter (debugger : ARMDebugger) : ARMDebugger :=
  set_state debugger DEBUGGER_PAUSED.

Definition ARMDebuggerInit (cpu : ARMCore) : ARMDebugger :=
  {| state := DEBUGGER_PAUSED; cpu := cpu; breakpoints := [];
     memoryShim := {| watchpoints := [] |}; histate := [] |}.

End Debugger.

(** * Specification-side definitions *)

(** ** Tokens and the values of literals *)

(** The characters that end a token: the terminator and the separator. *)
Definition is_terminator (c : ascii) : bool :=
  Ascii.eqb c NUL || Ascii.eqb c " "%char.

Definition token_chars (t : cstring) : bool :=
  forallb (fun c => negb (is_terminator c)) t.

(** The state machine of the parser run over the characters of a token. *)
Fixpoint run_token (debugger : ARMDebugger) (t : cstring)
    (state : _DVParseState) (current : Z) : _DVParseState * Z :=
  match t with
  | [] => (state, current)
  | token :: t' =>
      let '(state', current') :=
        DVParse_switch debugger state token current in
      run_token debugger t' state' current'
  end.

(** The character [c] has no transition in the state [st]. *)
Definition no_transition (st : _DVParseState) (c : ascii) : Prop :=
  forall debugger current,
    fst (DVParse_switch debugger st c current) = PARSE_ERROR.

Definition is_digit (c : ascii) : bool :=
  (48 <=? char_code c) && (char_code c <=? 57).

Definition is_nonzero_digit (c : ascii) : bool :=
  (49 <=? char_code c) && (char_code c <=? 57).

Definition is_upper_hex (c : ascii) : bool :=
  (65 <=? char_code c) && (char_code c <=? 70).

Definition is_lower_hex (c : ascii) : bool :=
  (97 <=? char_code c) && (char_code c <=? 102).

Definition is_hex_digit (c : ascii) : bool :=
  is_digit c || is_upper_hex c || is_lower_hex c.

Definition is_x (c : ascii) : bool :=
  Ascii.eqb c "x"%char || Ascii.eqb c "X"%char.

Definition digit_value (c : ascii) : Z := char_code c - char_code "0"%char.

Definition hex_digit_value (c : ascii) : Z :=
  if is_digit c then char_code c - char_code "0"%char
  else if is_upper_hex c then char_code c - char_code "A"%char + 10
  else char_code c - char_code "a"%char + 10.

(** The number a string of decimal digits denotes, in [Z]. *)
Definition decimal_value (s : cstring) : Z :=
  fold_left (fun acc c => acc * 10 + digit_value c) s 0.

(** The number a string of hexadecimal digits denotes, in [Z]. *)
Definition hex_value (s : cstring) : Z :=
  fold_left (fun acc c => acc * 16 + hex_digit_value c) s 0.

(** [[1-9][0-9]*] *)
Definition is_decimal_literal (s : cstring) : bool :=
  match s with
  | [] => false
  | c :: ds => is_nonzero_digit c && forallb is_digit ds
  end.

(** [0x] or [0X] followed by hexadecimal digits, possibly none. *)
Definition is_0x_literal (s : cstring) : bool :=
  match s with
  | z :: x :: hs => Ascii.eqb z "0"%char && is_x x && forallb is_hex_digit hs
  | _ => false
  end.

Definition strsize (s : cstring) : Z := Z.of_nat (List.length s).

(** The register a register token names. *)
Definition register_tokens : list (string * nat) :=
  [ ("r0", 0); ("r1", 1); ("r2", 2); ("r3", 3); ("r4", 4); ("r5", 5);
    ("r6", 6); ("r7", 7); ("r8", 8); ("r9", 9); ("r10", 10); ("r11", 11);
    ("r12", 12); ("r13", 13); ("r14", 14); ("r15", 15);
    ("pc", ARM_PC); ("sp", ARM_SP); ("lr", ARM_LR) ]%string%nat.

(** ** Sample machines *)

Definition sample_psr : PSR :=
  {| packed := 0; psr_n := false; psr_z := false; psr_c := false;
     psr_v := false; psr_i := false; psr_f := false; psr_t := false |}.

(** A core in the wide encoding whose register [r] holds [100 + r]. *)
Definition sample_cpu : ARMCore :=
  {| gprs := map (fun r => 100 + Z.of_nat r) (seq 0 16);
     cpsr := sample_psr; memory := MEMORY_OTHER 0 |}.

Definition sample_debugger : ARMDebugger := ARMDebuggerInit sample_cpu.

(** A step that advances the program counter by one wide instruction. *)
Definition sample_ARMRun (c : ARMCore) : ARMCore :=
  {| gprs := firstn ARM_PC (gprs c) ++ [to_int32 (gpr c ARM_PC + 4)];
     cpsr := cpsr c; memory := memory c |}.

(** A line as the editor returns it: the text and the newline. *)
Definition input_line (s : string) : cstring := cstr s ++ [LF].

(** The successive registration of watchpoints at the given values. *)
Fixpoint setWatchpoints (debugger : ARMDebugger) (values : list Z)
    : ARMDebugger * trace :=
  match values with
  | [] => (debugger, [])
  | v :: values' =>
      let '(debugger1, t1) := _setWatchpoint debugger [DV_INT v] in
      let '(debugger2, t2) := setWatchpoints debugger1 values' in
      (debugger2, t1 ++ t2)
  end.

(** What follows a token that ended without an error. *)
Definition after_token (d : ARMDebugger) (tail : cstring) (len : Z)
    : DebugVector :=
  match tail with
  | c :: rest =>
      if Ascii.eqb c " "%char then _DVParse d rest (size_sub len 1) else []
  | [] => []
  end.

Definition ends_token (tail : cstring) (len : Z) : bool :=
  match tail with
  | [] => true
  | c :: _ => is_terminator c || (len <=? 0)
  end.

(** The digits of a hexadecimal literal, when the string has one of the
    prefixes. *)
Definition hex_digits_of (s : cstring) : option cstring :=
  match s with
  | c :: hs =>
      if Ascii.eqb c "$"%char then Some hs
      else if Ascii.eqb c "0"%char then
        match hs with
        | x :: hs' => if is_x x then Some hs' else None
        | [] => None
        end
      else None
  | [] => None
  end.

(** The value of a literal of the grammar: [[1-9][0-9]*], or a prefix
    [0x], [0X] or [$] followed by at least one hexadecimal digit. *)
Definition literal_value (s : cstring) : option Z :=
  if is_decimal_literal s then Some (decimal_value s)
  else
    match hex_digits_of s with
    | Some (h :: hs) =>
        if forallb is_hex_digit (h :: hs) then Some (hex_value (h :: hs))
        else None
    | _ => None
    end.

(** The breakpoint at [address] matches the program counter of [d]. *)
Definition breakpoint_hit (d : ARMDebugger) (address : Z) : Prop :=
  to_uint32 (address + instruction_length (execution_mode (cpu d)))
  = to_uint32 (gpr (cpu d) ARM_PC).

Definition hit_notice : event := Printf "Hit breakpoint\n" [].

Definition missing_arguments : trace :=
  [Printf "%s\n" [A_str "Arguments missing"]].

(** The length of the command name and the parsed arguments as [_parse]
    computes them. *)
Definition command_length (line : cstring) (count : Z) : Z :=
  match strchr line " "%char with
  | Some firstSpace => Z.of_nat firstSpace
  | None => count
  end.

Definition arguments_of (d : ARMDebugger) (line : cstring) (count : Z)
    : DebugVector :=
  match strchr line " "%char with
  | Some firstSpace =>
      _DVParse d (skipn (S firstSpace) line)
        (size_sub (size_sub count (Z.of_nat firstSpace)) 1)
  | None => []
  end.

Definition no_NUL (s : cstring) : bool :=
  forallb (fun c => negb (Ascii.eqb c NUL)) s.

(** ** Shapes of argument vectors and sequences of tokens *)

(** A run of Integer nodes in the range of [int32_t], ended or not by one
    error node. *)
Fixpoint integers_then_error (dv : DebugVector) : bool :=
  match dv with
  | [] => true
  | DV_INT v :: dv' =>
      (- 2 ^ 31 <=? v) && (v <? 2 ^ 31) && integers_then_error dv'
  | [DV_ERROR] => true
  | _ => false
  end.

(** Tokens written one after the other with one space between them. *)
Fixpoint join_tokens (ts : list cstring) : cstring :=
  match ts with
  | [] => []
  | [t] => t
  | t :: ts' => t ++ " "%char :: join_tokens ts'
  end.

(** The node the state machine builds for one token. *)
Definition token_node (d : ARMDebugger) (t : cstring) : DebugVectorNode :=
  let '(st, cur) := run_token d t PARSE_ROOT 0 in
  if is_PARSE_ERROR st then DV_ERROR else DV_INT (to_int32 cur).

(** The nodes of the tokens up to and including the first error. *)
Fixpoint nodes_until_error (d : ARMDebugger) (ts : list cstring)
    : DebugVector :=
  match ts with
  | [] => []
  | t :: ts' =>
      match token_node d t with
      | DV_ERROR => [DV_ERROR]
      | n => n :: nodes_until_error d ts'
      end
  end.

Definition starts_with_space (s : cstring) : bool :=
  match s with
  | c :: _ => Ascii.eqb c " "%char
  | [] => false
  end.

(** A command word: no terminator and no separator in it. *)
Definition is_word (s : cstring) : bool := token_chars s.

(** Two strings that differ in the case of letters only. *)
Definition same_up_to_case (a b : cstring) : Prop :=
  map tolower a = map tolower b.

(** The core after [n] steps. *)
Fixpoint steps (ARMRun : ARMCore -> ARMCore) (n : nat) (c : ARMCore)
    : ARMCore :=
  match n with
  | O => c
  | S n' => steps ARMRun n' (ARMRun c)
  end.

(** Some breakpoint of the list matches the program counter of the core. *)
Definition some_breakpoint_hits (l : list Z) (c : ARMCore) : bool :=
  existsb
    (fun address =>
       uint32_add address (instruction_length (execution_mode c))
       =? to_uint32 (gpr c ARM_PC)) l.

Definition is_suffix {A : Type} (l l' : list A) : Prop :=
  exists front, l' = front ++ l.

(** What the handler of one command line may do to the debugger: nothing,
    set the state to Running or to Shutdown, step the core once, add one
    breakpoint at the head of the list, or add one watchpoint at the head
    of the shim's list with the shim as memory interface. *)
Definition one_command_effect (ARMRun : ARMCore -> ARMCore)
    (d d' : ARMDebugger) : Prop :=
  d' = d \/
  d' = set_state d DEBUGGER_RUNNING \/
  d' = set_state d DEBUGGER_SHUTDOWN \/
  d' = set_cpu d (ARMRun (cpu d)) \/
  (exists a, 0 <= a < 2 ^ 32 /\
             d' = set_breakpoints d (a :: breakpoints d)) \/
  (exists a, 0 <= a < 2 ^ 32 /\
             d' = set_watchpoints (set_memory d MEMORY_SHIM)
                    (a :: watchpoints (memoryShim d))).

Definition parse_error_notice : trace := [Printf "Parse error\n" []].
Definition not_found_notice : trace := [Printf "Command not found\n" []].

(** The input line made of a command word, a space, the argument string
    and the newline. *)
Definition command_line (word args : cstring) : cstring :=
  word ++ " "%char :: args ++ [LF].

(** The breakpoints and the watchpoints of [d] are still there in [d'],
    behind whatever was added. *)
Definition keeps_points (d d' : ARMDebugger) : Prop :=
  is_suffix (breakpoints d) (breakpoints d') /\
  is_suffix (watchpoints (memoryShim d)) (watchpoints (memoryShim d')).

(** The input line made of a command word and the newline. *)
Definition bare_line (word : cstring) : cstring := word ++ [LF].

(** Case analysis on the eight bits of a character. *)
Ltac each_char c :=
  let b0 := fresh "b" in let b1 := fresh "b" in let b2 := fresh "b" in
  let b3 := fresh "b" in let b4 := fresh "b" in let b5 := fresh "b" in
  let b6 := fresh "b" in let b7 := fresh "b" in
  destruct c as [b0 b1 b2 b3 b4 b5 b6 b7];
  destruct b0, b1, b2, b3, b4, b5, b6, b7.

(** * Properties *)

(** ** Machine integers *)

Lemma to_uint32_range z : 0 <= to_uint32 z < 2 ^ 32.
Proof. unfold to_uint32. apply Z.mod_pos_bound. lia. Qed.

Lemma to_uint32_idem z : to_uint32 (to_uint32 z) = to_uint32 z.
Proof. unfold to_uint32. apply Z.mod_mod. lia. Qed.

Lemma to_uint32_small z : 0 <= z < 2 ^ 32 -> to_uint32 z = z.
Proof. intros H. unfold to_uint32. apply Z.mod_small. exact H. Qed.

Lemma to_uint32_to_int32 z : to_uint32 (to_int32 z) = to_uint32 z.
Proof.
  unfold to_int32. pose proof (to_uint32_range z) as Hr.
  destruct (to_uint32 z <? 2 ^ 31) eqn:E.
  - apply to_uint32_idem.
  - unfold to_uint32 at 1.
    replace (to_uint32 z - 2 ^ 32) with (to_uint32 z + (-1) * 2 ^ 32) by lia.
    rewrite Z.mod_add by lia. apply to_uint32_idem.
Qed.

Lemma to_int32_to_uint32 z : int32_range z -> to_int32 (to_uint32 z) = z.
Proof.
  unfold int32_range, to_int32. intros H. rewrite to_uint32_idem.
  unfold to_uint32.
  destruct (Z.ltb_spec (z mod 2 ^ 32) (2 ^ 31)) as [L | L].
  - destruct (Z.lt_ge_cases z 0) as [N | N].
    + replace z with (z + 2 ^ 32 + (-1) * 2 ^ 32) in L by lia.
      rewrite Z.mod_add, Z.mod_small in L by lia. lia.
    + apply Z.mod_small. lia.
  - destruct (Z.lt_ge_cases z 0) as [N | N].
    + replace z with (z + 2 ^ 32 + (-1) * 2 ^ 32) at 1 by lia.
      rewrite Z.mod_add, Z.mod_small by lia. lia.
    + rewrite Z.mod_small in L by lia. lia.
Qed.

Lemma to_int32_small z : 0 <= z < 2 ^ 31 -> to_int32 z = z.
Proof.
  intros H. unfold to_int32. rewrite to_uint32_small by lia.
  destruct (Z.ltb_spec z (2 ^ 31)); lia.
Qed.

Lemma uint32_accumulate a base v :
  uint32_add (uint32_mul (to_uint32 a) base) v = to_uint32 (a * base + v).
Proof.
  unfold uint32_add, uint32_mul, to_uint32.
  rewrite Z.add_mod_idemp_l by lia.
  rewrite (Z.add_mod (a mod 2 ^ 32 * base) v) by lia.
  rewrite Z.mul_mod_idemp_l by lia.
  rewrite <- Z.add_mod by lia. reflexivity.
Qed.

(** ** The parser on one token *)

Lemma run_token_error d t cur :
  run_token d t PARSE_ERROR cur = (PARSE_ERROR, cur).
Proof. induction t as [| c t IH]; simpl; auto. Qed.

Lemma run_token_app d t1 t2 st cur :
  run_token d (t1 ++ t2) st cur =
  let '(st1, cur1) := run_token d t1 st cur in run_token d t2 st1 cur1.
Proof.
  revert st cur. induction t1 as [| c t1 IH]; intros st cur; simpl.
  - reflexivity.
  - destruct (DVParse_switch d st c cur) as [st1 cur1]. apply IH.
Qed.

Lemma loop_error d s len cur :
  DVParse_loop d s len PARSE_ERROR cur = [DV_ERROR].
Proof.
  destruct s as [| c s]; simpl; [reflexivity |].
  unfold DVParse_continue. simpl.
  rewrite !andb_false_r. reflexivity.
Qed.

Lemma continue_token c len st :
  is_terminator c = false -> 0 < len -> is_PARSE_ERROR st = false ->
  DVParse_continue c len st = true.
Proof.
  unfold is_terminator, DVParse_continue. intros Hc Hl Hs.
  apply orb_false_elim in Hc. destruct Hc as [H0 H1].
  rewrite H0, H1, Hs. simpl.
  destruct (Z.ltb_spec 0 len); [reflexivity | lia].
Qed.

Lemma continue_terminator c len st :
  is_terminator c = true -> DVParse_continue c len st = false.
Proof.
  unfold is_terminator, DVParse_continue. intros Hc.
  apply orb_true_elim in Hc. destruct Hc as [H | H]; rewrite H; simpl.
  - rewrite andb_false_r. reflexivity.
  - rewrite andb_false_r. reflexivity.
Qed.

(** The loop consumes a token whole, or stops in it on an error. *)
Lemma loop_token d t : forall tail len st cur,
  token_chars t = true -> strsize t <= len ->
  DVParse_loop d (t ++ tail) len st cur =
  let '(st', cur') := run_token d t st cur in
  if is_PARSE_ERROR st' then [DV_ERROR]
  else DVParse_loop d tail (len - strsize t) st' cur'.
Proof.
  unfold strsize.
  induction t as [| c t IH]; intros tail len st cur Htok Hlen.
  - simpl. rewrite Z.sub_0_r.
    destruct (is_PARSE_ERROR st) eqn:E; [| reflexivity].
    destruct st; try discriminate. apply loop_error.
  - simpl in Htok. apply andb_prop in Htok. destruct Htok as [Hc Ht].
    apply negb_true_iff in Hc.
    destruct (is_PARSE_ERROR st) eqn:E.
    + destruct st; try discriminate.
      rewrite loop_error. simpl run_token. rewrite run_token_error.
      reflexivity.
    + change ((c :: t) ++ tail) with (c :: (t ++ tail)).
      cbn [DVParse_loop run_token].
      rewrite continue_token; auto.
      2:{ change (List.length (c :: t)) with (S (List.length t)) in Hlen. lia. }
      destruct (DVParse_switch d st c cur) as [st1 cur1].
      rewrite IH; auto.
      2:{ change (List.length (c :: t)) with (S (List.length t)) in Hlen. lia. }
      replace (len - 1 - Z.of_nat (List.length t))
        with (len - Z.of_nat (List.length (c :: t))).
      * reflexivity.
      * change (List.length (c :: t)) with (S (List.length t)). lia.
Qed.

Lemma loop_exit d tail len st cur :
  is_PARSE_ERROR st = false -> ends_token tail len = true ->
  DVParse_loop d tail len st cur = DV_INT (to_int32 cur) :: after_token d tail len.
Proof.
  intros Hs He. destruct tail as [| c rest]; simpl.
  - rewrite Hs. reflexivity.
  - assert (Hc : DVParse_continue c len st = false).
    { simpl in He. apply orb_true_elim in He. destruct He as [H | H].
      - apply continue_terminator. exact H.
      - unfold DVParse_continue.
        destruct (Z.ltb_spec 0 len) as [L | L]; [| reflexivity].
        apply Z.leb_le in H. lia. }
    rewrite Hc, Hs. unfold _DVParse. reflexivity.
Qed.

(** The parser on an argument string that starts with the token [t]. *)
Lemma DVParse_token d t tail len :
  token_chars t = true -> ends_token tail (len - strsize t) = true ->
  strsize t <= len -> 1 <= len ->
  _DVParse d (t ++ tail) len =
  let '(st, cur) := run_token d t PARSE_ROOT 0 in
  if is_PARSE_ERROR st then [DV_ERROR]
  else DV_INT (to_int32 cur) :: after_token d tail (len - strsize t).
Proof.
  intros Ht He Hl H1. unfold _DVParse.
  destruct (Z.ltb_spec len 1) as [L | L]; [lia |].
  rewrite loop_token by assumption.
  destruct (run_token d t PARSE_ROOT 0) as [st cur].
  destruct (is_PARSE_ERROR st) eqn:E; [reflexivity |].
  apply loop_exit; assumption.
Qed.

(** The parser on an argument string that is one token. *)
Lemma DVParse_single d t :
  token_chars t = true -> t <> [] ->
  _DVParse d t (strsize t) =
  let '(st, cur) := run_token d t PARSE_ROOT 0 in
  if is_PARSE_ERROR st then [DV_ERROR] else [DV_INT (to_int32 cur)].
Proof.
  intros Ht Hne.
  pose proof (DVParse_token d t [] (strsize t) Ht eq_refl (Z.le_refl _)) as H.
  rewrite app_nil_r in H. apply H.
  destruct t as [| c t]; [congruence |].
  unfold strsize. change (List.length (c :: t)) with (S (List.length t)). lia.
Qed.

Lemma switch_state_indep d d' st c cur cur' :
  fst (DVParse_switch d st c cur) = fst (DVParse_switch d' st c cur').
Proof. destruct st; each_char c; reflexivity. Qed.

Lemma is_PARSE_ERROR_true st : is_PARSE_ERROR st = true <-> st = PARSE_ERROR.
Proof. destruct st; simpl; split; congruence. Qed.

Lemma is_PARSE_ERROR_false st : is_PARSE_ERROR st = false <-> st <> PARSE_ERROR.
Proof. destruct st; simpl; split; congruence. Qed.

(** The machine ends a token in the error state exactly when it met a
    character for which the state it was in has no transition. *)
Lemma run_token_error_iff d t : forall st cur,
  st <> PARSE_ERROR ->
  (fst (run_token d t st cur) = PARSE_ERROR <->
   exists p c q,
     t = p ++ c :: q /\
     fst (run_token d p st cur) <> PARSE_ERROR /\
     no_transition (fst (run_token d p st cur)) c).
Proof.
  induction t as [| a t IH]; intros st cur Hst; simpl.
  - split.
    + intros H. contradiction.
    + intros (p & c & q & H & _). destruct p; discriminate.
  - destruct (DVParse_switch d st a cur) as [st1 cur1] eqn:Esw.
    destruct (is_PARSE_ERROR st1) eqn:E1.
    + apply is_PARSE_ERROR_true in E1. subst st1.
      rewrite run_token_error. simpl. split; [intros _ | reflexivity].
      exists [], a, t. simpl. repeat split; auto.
      intros d' cur'.
      rewrite (switch_state_indep d' d st a cur' cur), Esw. reflexivity.
    + apply is_PARSE_ERROR_false in E1. rewrite (IH st1 cur1 E1). split.
      * intros (p & c & q & Ht & Hp & Hc).
        exists (a :: p), c, q. simpl. rewrite Esw. subst t. auto.
      * intros (p & c & q & Ht & Hp & Hc).
        destruct p as [| a' p]; simpl in *.
        -- injection Ht as -> ->. exfalso. apply E1.
           specialize (Hc d cur). rewrite Esw in Hc. exact Hc.
        -- injection Ht as <- ->. rewrite Esw in Hp, Hc.
           exists p, c, q. auto.
Qed.

(** ** Decimal and hexadecimal accumulation *)

Lemma switch_root_decimal d c cur :
  is_nonzero_digit c = true ->
  DVParse_switch d PARSE_ROOT c cur =
  (PARSE_EXPECT_DECIMAL, to_uint32 (digit_value c)).
Proof. each_char c; intros H; try discriminate H; reflexivity. Qed.

Lemma switch_decimal d c cur :
  is_digit c = true ->
  DVParse_switch d PARSE_EXPECT_DECIMAL c cur =
  (PARSE_EXPECT_DECIMAL, uint32_add (uint32_mul cur 10) (digit_value c)).
Proof. each_char c; intros H; try discriminate H; reflexivity. Qed.

Lemma switch_hex d c cur :
  is_hex_digit c = true ->
  DVParse_switch d PARSE_EXPECT_HEX c cur =
  (PARSE_EXPECT_HEX, uint32_add (uint32_mul cur 16) (hex_digit_value c)).
Proof. each_char c; intros H; try discriminate H; reflexivity. Qed.

Lemma switch_hex_other d c cur :
  is_hex_digit c = false ->
  fst (DVParse_switch d PARSE_EXPECT_HEX c cur) = PARSE_ERROR.
Proof. each_char c; intros H; try discriminate H; reflexivity. Qed.

Lemma switch_prefix d c cur :
  DVParse_switch d PARSE_EXPECT_PREFIX c cur =
  if is_x c then (PARSE_EXPECT_HEX, 0) else (PARSE_ERROR, cur).
Proof. each_char c; reflexivity. Qed.

Lemma digit_not_terminator c : is_digit c = true -> is_terminator c = false.
Proof. each_char c; intros H; try discriminate H; reflexivity. Qed.

Lemma hex_digit_not_terminator c :
  is_hex_digit c = true -> is_terminator c = false.
Proof. each_char c; intros H; try discriminate H; reflexivity. Qed.

Lemma nonzero_digit_is_digit c : is_nonzero_digit c = true -> is_digit c = true.
Proof. each_char c; intros H; try discriminate H; reflexivity. Qed.

Lemma forallb_token_chars (f : ascii -> bool) t :
  (forall c, f c = true -> is_terminator c = false) ->
  forallb f t = true -> token_chars t = true.
Proof.
  intros Hf. unfold token_chars.
  induction t as [| c t IH]; simpl; [reflexivity |].
  intros H. apply andb_prop in H. destruct H as [Hc Ht].
  rewrite (Hf c Hc). simpl. auto.
Qed.

Lemma run_decimal d ds : forall a,
  forallb is_digit ds = true ->
  run_token d ds PARSE_EXPECT_DECIMAL (to_uint32 a) =
  (PARSE_EXPECT_DECIMAL,
   to_uint32 (fold_left (fun acc c => acc * 10 + digit_value c) ds a)).
Proof.
  induction ds as [| c ds IH]; intros a H; cbn [run_token fold_left].
  - reflexivity.
  - simpl in H. apply andb_prop in H. destruct H as [Hc Hds].
    rewrite switch_decimal by exact Hc.
    rewrite uint32_accumulate. apply IH. exact Hds.
Qed.

Lemma run_hex d hs : forall a,
  forallb is_hex_digit hs = true ->
  run_token d hs PARSE_EXPECT_HEX (to_uint32 a) =
  (PARSE_EXPECT_HEX,
   to_uint32 (fold_left (fun acc c => acc * 16 + hex_digit_value c) hs a)).
Proof.
  induction hs as [| c hs IH]; intros a H; cbn [run_token fold_left].
  - reflexivity.
  - simpl in H. apply andb_prop in H. destruct H as [Hc Hhs].
    rewrite switch_hex by exact Hc.
    rewrite uint32_accumulate. apply IH. exact Hhs.
Qed.

Lemma run_hex_other d hs : forall cur,
  forallb is_hex_digit hs = false ->
  fst (run_token d hs PARSE_EXPECT_HEX cur) = PARSE_ERROR.
Proof.
  induction hs as [| c hs IH]; intros cur H;
    cbn [run_token forallb] in *.
  - discriminate.
  - destruct (is_hex_digit c) eqn:Ec.
    + rewrite switch_hex by exact Ec. apply IH. exact H.
    + pose proof (switch_hex_other d c cur Ec) as Hs.
      destruct (DVParse_switch d PARSE_EXPECT_HEX c cur) as [st1 cur1].
      simpl in Hs. subst st1. rewrite run_token_error. reflexivity.
Qed.

Lemma run_decimal_literal d s :
  is_decimal_literal s = true ->
  run_token d s PARSE_ROOT 0 =
  (PARSE_EXPECT_DECIMAL, to_uint32 (decimal_value s)).
Proof.
  destruct s as [| c ds]; cbn [is_decimal_literal run_token];
    [discriminate |].
  intros H. apply andb_prop in H. destruct H as [Hc Hds].
  rewrite switch_root_decimal by exact Hc.
  rewrite run_decimal by exact Hds.
  unfold decimal_value. simpl. reflexivity.
Qed.

Lemma decimal_literal_token s :
  is_decimal_literal s = true -> token_chars s = true /\ s <> [].
Proof.
  destruct s as [| c ds]; cbn [is_decimal_literal]; [discriminate |].
  intros H. apply andb_prop in H. destruct H as [Hc Hds]. split.
  - apply (forallb_token_chars is_digit); [apply digit_not_terminator |].
    cbn [forallb]. rewrite (nonzero_digit_is_digit c Hc). exact Hds.
  - discriminate.
Qed.

Lemma DVParse_decimal d s :
  is_decimal_literal s = true ->
  _DVParse d s (strsize s) = [DV_INT (to_int32 (decimal_value s))].
Proof.
  intros H. destruct (decimal_literal_token s H) as [Ht Hne].
  rewrite DVParse_single by assumption.
  rewrite run_decimal_literal by exact H. simpl.
  unfold to_int32. rewrite to_uint32_idem. reflexivity.
Qed.

Lemma run_hex_prefix d s hs :
  hex_digits_of s = Some hs ->
  exists p, s = p ++ hs /\ token_chars p = true /\
            run_token d p PARSE_ROOT 0 = (PARSE_EXPECT_HEX, to_uint32 0).
Proof.
  destruct s as [| c s]; simpl; [discriminate |].
  destruct (Ascii.eqb c "$") eqn:E1.
  - apply Ascii.eqb_eq in E1. subst c. intros [= ->].
    exists ["$"%char]. repeat split.
  - destruct (Ascii.eqb c "0") eqn:E2; [| discriminate].
    apply Ascii.eqb_eq in E2. subst c.
    destruct s as [| x s]; [discriminate |].
    destruct (is_x x) eqn:E3; [| discriminate].
    intros [= ->]. exists ["0"%char; x]. repeat split.
    + unfold token_chars. simpl. rewrite andb_true_r.
      unfold is_x in E3. apply orb_prop in E3.
      destruct E3 as [E | E]; apply Ascii.eqb_eq in E; subst x; reflexivity.
    + cbn [run_token].
      change (DVParse_switch d PARSE_ROOT "0"%char 0)
        with (PARSE_EXPECT_PREFIX, 0).
      cbv beta iota. rewrite switch_prefix, E3. reflexivity.
Qed.

Lemma DVParse_hex d s hs :
  hex_digits_of s = Some hs -> forallb is_hex_digit hs = true ->
  _DVParse d s (strsize s) = [DV_INT (to_int32 (hex_value hs))].
Proof.
  intros Hp Hh. destruct (run_hex_prefix d s hs Hp) as (p & -> & Htp & Hrun).
  assert (Hth : token_chars hs = true)
    by (apply (forallb_token_chars is_hex_digit);
        [apply hex_digit_not_terminator | exact Hh]).
  rewrite DVParse_single.
  - rewrite run_token_app, Hrun, run_hex by exact Hh. simpl.
    unfold to_int32, hex_value. rewrite to_uint32_idem. reflexivity.
  - unfold token_chars in *. rewrite forallb_app, Htp, Hth. reflexivity.
  - destruct p; [discriminate Hrun | discriminate].
Qed.

Lemma DVParse_literal d s v :
  literal_value s = Some v ->
  _DVParse d s (strsize s) = [DV_INT (to_int32 v)].
Proof.
  unfold literal_value. destruct (is_decimal_literal s) eqn:Ed.
  - intros [= <-]. apply DVParse_decimal. exact Ed.
  - destruct (hex_digits_of s) as [[| h hs] |] eqn:Eh; try discriminate.
    destruct (forallb is_hex_digit (h :: hs)) eqn:Ef; [| discriminate].
    intros [= <-]. apply (DVParse_hex d s (h :: hs)); assumption.
Qed.

Lemma run_literal d s v :
  literal_value s = Some v ->
  fst (run_token d s PARSE_ROOT 0) <> PARSE_ERROR /\
  snd (run_token d s PARSE_ROOT 0) = to_uint32 v.
Proof.
  unfold literal_value. destruct (is_decimal_literal s) eqn:Ed.
  - intros [= <-]. rewrite run_decimal_literal by exact Ed.
    simpl. split; [discriminate | reflexivity].
  - destruct (hex_digits_of s) as [[| h hs] |] eqn:Eh; try discriminate.
    destruct (forallb is_hex_digit (h :: hs)) eqn:Ef; [| discriminate].
    intros [= <-].
    destruct (run_hex_prefix d s (h :: hs) Eh) as (p & -> & _ & Hrun).
    rewrite run_token_app, Hrun, run_hex by exact Ef.
    simpl. split; [discriminate | reflexivity].
Qed.

Lemma digit_value_range c : is_digit c = true -> 0 <= digit_value c <= 9.
Proof.
  each_char c; intros H; try discriminate H; vm_compute; split; discriminate.
Qed.

Lemma decimal_fold_nonneg ds : forall a,
  forallb is_digit ds = true -> 0 <= a ->
  0 <= fold_left (fun acc c => acc * 10 + digit_value c) ds a.
Proof.
  induction ds as [| c ds IH]; intros a H Ha; cbn [fold_left].
  - exact Ha.
  - cbn [forallb] in H. apply andb_prop in H. destruct H as [Hc Hds].
    apply IH; [exact Hds |].
    pose proof (digit_value_range c Hc). lia.
Qed.

Lemma decimal_value_nonneg s :
  is_decimal_literal s = true -> 0 <= decimal_value s.
Proof.
  destruct s as [| c ds]; cbn [is_decimal_literal]; [discriminate |].
  intros H. apply andb_prop in H. destruct H as [Hc Hds].
  unfold decimal_value. apply decimal_fold_nonneg; [| lia].
  cbn [forallb]. rewrite (nonzero_digit_is_digit c Hc). exact Hds.
Qed.

(** ** Register tokens *)

(** Every register token but [r1] yields the register it names: the value
    is read as [uint32_t] and stored as [int32_t]. *)
Lemma register_tokens_but_r1 d :
  Forall (fun '(name, r) =>
            name = "r1"%string \/
            _DVParse d (cstr name) (strsize (cstr name)) =
            [DV_INT (to_int32 (to_uint32 (gpr (cpu d) r)))])
         register_tokens.
Proof.
  unfold register_tokens.
  repeat (apply Forall_cons; [first [right; reflexivity | left; reflexivity] |]).
  apply Forall_nil.
Qed.

(** With registers in the range of [int32_t] the token is the value. *)
Lemma register_tokens_but_r1_exact d :
  Forall int32_range (gprs (cpu d)) -> List.length (gprs (cpu d)) = 16%nat ->
  Forall (fun '(name, r) =>
            name = "r1"%string \/
            _DVParse d (cstr name) (strsize (cstr name)) =
            [DV_INT (gpr (cpu d) r)])
         register_tokens.
Proof.
  intros Hr Hl.
  assert (Hg : forall r, (r < 16)%nat ->
                         to_int32 (to_uint32 (gpr (cpu d) r)) = gpr (cpu d) r).
  { intros r Hlt. apply to_int32_to_uint32. unfold gpr.
    rewrite Forall_forall in Hr. apply Hr. apply nth_In. lia. }
  pose proof (register_tokens_but_r1 d) as H.
  unfold register_tokens in *. rewrite Forall_forall in *.
  intros [name r] Hin. specialize (H (name, r) Hin). cbv beta iota in H.
  destruct H as [H | H]; [left; exact H | right].
  rewrite H. f_equal. f_equal. apply Hg.
  cbn [In] in Hin.
  repeat (destruct Hin as [Hin | Hin];
          [injection Hin as _ <-; unfold ARM_PC, ARM_SP, ARM_LR; lia |]).
  contradiction.
Qed.

Lemma r1_token d : _DVParse d (cstr "r1") 2 = [DV_INT 0].
Proof. reflexivity. Qed.

(** C3: the register token [r1], given as a complete argument token while
    register 1 of the core holds 101, yields the Integer token 0 and not
    the value of the register: the state entered after [r1] records no
    value, and the end of the token is accepted in it. *)
Theorem r1_token_loses_register_value :
  gpr (cpu sample_debugger) 1 = 101 /\
  _DVParse sample_debugger (cstr "r1") (strsize (cstr "r1")) = [DV_INT 0].
Proof. split; reflexivity. Qed.

(** ** Decimal literals and the leading zero *)

(** C4, as the claim states it, fails: the argument string [0] begins with
    the digit 0 and is not a hexadecimal literal, and the parser accepts it
    as the Integer token 0; and the decimal string [4294967297], which is
    2^32 + 1, yields the Integer token 1. *)
Lemma leading_zero_alone_is_accepted :
  is_0x_literal (cstr "0") = false /\
  _DVParse sample_debugger (cstr "0") (strsize (cstr "0")) = [DV_INT 0] /\
  _DVParse sample_debugger (cstr "0") (strsize (cstr "0")) <> [DV_ERROR] /\
  is_decimal_literal (cstr "4294967297") = true /\
  _DVParse sample_debugger (cstr "4294967297") (strsize (cstr "4294967297"))
  = [DV_INT 1].
Proof. repeat split; try reflexivity. discriminate. Qed.

(** C4, amended: a decimal token [[1-9][0-9]*] yields the Integer token
    that holds its value reduced to 32 bits, which is the value itself
    below 2^31; a token that begins with the digit 0 is rejected when it has
    further characters and is not [0x] or [0X] followed by hexadecimal
    digits only, and the bare token [0] is the Integer token 0. *)
Theorem decimal_token_value_and_leading_zero (d : ARMDebugger) (s : cstring) :
  token_chars s = true ->
  (is_decimal_literal s = true ->
     _DVParse d s (strsize s) = [DV_INT (to_int32 (decimal_value s))] /\
     (decimal_value s < 2 ^ 31 ->
      _DVParse d s (strsize s) = [DV_INT (decimal_value s)]))
  /\
  (forall rest, s = "0"%char :: rest ->
     (rest = [] -> _DVParse d s (strsize s) = [DV_INT 0]) /\
     (rest <> [] -> is_0x_literal s = false ->
      _DVParse d s (strsize s) = [DV_ERROR]) /\
     (is_0x_literal s = true ->
      exists v, _DVParse d s (strsize s) = [DV_INT v])).
Proof.
  intros Htok. split.
  - intros Hd. rewrite DVParse_decimal by exact Hd. split; [reflexivity |].
    intros Hlt. rewrite to_int32_small; [reflexivity |].
    pose proof (decimal_value_nonneg s Hd). lia.
  - intros rest ->. split; [| split].
    + intros ->. reflexivity.
    + intros Hne H0x. rewrite DVParse_single by (assumption || discriminate).
      destruct rest as [| x hs]; [congruence |].
      cbn [run_token].
      change (DVParse_switch d PARSE_ROOT "0"%char 0)
        with (PARSE_EXPECT_PREFIX, 0).
      cbv beta iota. rewrite switch_prefix.
      cbn [is_0x_literal] in H0x. rewrite Ascii.eqb_refl in H0x.
      cbn [andb] in H0x.
      destruct (is_x x).
      * cbn [andb] in H0x.
        pose proof (run_hex_other d hs 0 H0x) as Hr.
        destruct (run_token d hs PARSE_EXPECT_HEX 0) as [st cur].
        simpl in Hr. subst st. reflexivity.
      * rewrite run_token_error. reflexivity.
    + intros H0x.
      destruct rest as [| x hs]; [discriminate H0x |].
      cbn [is_0x_literal] in H0x. rewrite Ascii.eqb_refl in H0x.
      cbn [andb] in H0x. apply andb_prop in H0x. destruct H0x as [Hx Hh].
      exists (to_int32 (hex_value hs)).
      apply (DVParse_hex d _ hs); [| exact Hh].
      cbn [hex_digits_of]. rewrite Hx.
      destruct (Ascii.eqb "0" "$") eqn:E; [discriminate E |].
      rewrite Ascii.eqb_refl. reflexivity.
Qed.

Lemma decimal_token_value_and_leading_zero_witness :
  _DVParse sample_debugger (cstr "4096") (strsize (cstr "4096"))
  = [DV_INT 4096] /\
  _DVParse sample_debugger (cstr "012") (strsize (cstr "012")) = [DV_ERROR].
Proof.
  split.
  - apply (decimal_token_value_and_leading_zero sample_debugger
             (cstr "4096")); reflexivity.
  - destruct (decimal_token_value_and_leading_zero sample_debugger
                (cstr "012") eq_refl) as [_ H].
    destruct (H (cstr "12") eq_refl) as (_ & Hreject & _).
    apply Hreject; [discriminate | reflexivity].
Defined.

(** ** Unchecked 32-bit accumulation *)

(** C8: for every literal of the grammar, decimal or hexadecimal, the
    accumulator at the end of the token is the value of the literal modulo
    2^32, and the Integer token holds that 32-bit word; each digit computes
    [current * 10 + digit] or [current * 16 + digit] with both operations
    wrapping at 32 bits. *)
Theorem literal_value_wraps_at_32_bits (d : ARMDebugger) (s : cstring)
    (v : Z) :
  literal_value s = Some v ->
  snd (run_token d s PARSE_ROOT 0) = v mod 2 ^ 32 /\
  (exists intValue,
     _DVParse d s (strsize s) = [DV_INT intValue] /\
     intValue = to_int32 (v mod 2 ^ 32) /\
     to_uint32 intValue = v mod 2 ^ 32) /\
  (forall c current, is_digit c = true ->
     DVParse_switch d PARSE_EXPECT_DECIMAL c current =
     (PARSE_EXPECT_DECIMAL,
      ((current * 10) mod 2 ^ 32 + digit_value c) mod 2 ^ 32)) /\
  (forall c current, is_hex_digit c = true ->
     DVParse_switch d PARSE_EXPECT_HEX c current =
     (PARSE_EXPECT_HEX,
      ((current * 16) mod 2 ^ 32 + hex_digit_value c) mod 2 ^ 32)).
Proof.
  intros Hv. split; [| split; [| split]].
  - apply (run_literal d s v Hv).
  - exists (to_int32 v). split; [| split].
    + apply DVParse_literal. exact Hv.
    + unfold to_int32. fold (to_uint32 v). rewrite to_uint32_idem.
      reflexivity.
    + apply to_uint32_to_int32.
  - intros c current Hc. apply switch_decimal. exact Hc.
  - intros c current Hc. apply switch_hex. exact Hc.
Qed.

Lemma literal_value_wraps_at_32_bits_witness :
  _DVParse sample_debugger (cstr "4294967301") (strsize (cstr "4294967301"))
  = [DV_INT 5] /\
  _DVParse sample_debugger (cstr "0x1000000FF") (strsize (cstr "0x1000000FF"))
  = [DV_INT 255].
Proof.
  split.
  - destruct (literal_value_wraps_at_32_bits sample_debugger
                (cstr "4294967301") 4294967301 eq_refl)
      as (_ & (i & Hp & Hi & _) & _).
    rewrite Hp, Hi. reflexivity.
  - destruct (literal_value_wraps_at_32_bits sample_debugger
                (cstr "0x1000000FF") 4294967551 eq_refl)
      as (_ & (i & Hp & Hi & _) & _).
    rewrite Hp, Hi. reflexivity.
Defined.

(** ** Tokens that end early *)

(** C10: an argument string that ends in the middle of a token is accepted
    as the Integer token of the accumulator, 0 for each of the strings
    listed; in general the first token of an argument string yields the
    Integer token of the accumulator reached at its end unless the state
    machine entered the error state, and it enters the error state exactly
    when it meets, inside the token, a character for which the state it is
    in has no transition. *)
Theorem token_ending_early_is_accepted (d : ARMDebugger) (t tail : cstring)
    (len : Z) :
  token_chars t = true -> ends_token tail (len - strsize t) = true ->
  strsize t <= len -> 1 <= len ->
  Forall (fun s => _DVParse d (cstr s) (strsize (cstr s)) = [DV_INT 0])
    [ "0"; "0x"; "$"; "r"; "r1"; "l"; "p"; "s" ]%string /\
  _DVParse d (t ++ tail) len =
    (if is_PARSE_ERROR (fst (run_token d t PARSE_ROOT 0)) then [DV_ERROR]
     else DV_INT (to_int32 (snd (run_token d t PARSE_ROOT 0)))
          :: after_token d tail (len - strsize t)) /\
  (fst (run_token d t PARSE_ROOT 0) = PARSE_ERROR <->
   exists p c q,
     t = p ++ c :: q /\
     fst (run_token d p PARSE_ROOT 0) <> PARSE_ERROR /\
     no_transition (fst (run_token d p PARSE_ROOT 0)) c).
Proof.
  intros Ht He Hl H1. split; [| split].
  - repeat (apply Forall_cons; [reflexivity |]). apply Forall_nil.
  - rewrite DVParse_token by assumption.
    destruct (run_token d t PARSE_ROOT 0) as [st cur]. reflexivity.
  - apply run_token_error_iff. discriminate.
Qed.

Lemma token_ending_early_is_accepted_witness :
  _DVParse sample_debugger (cstr "r1 0x") 5 = [DV_INT 0; DV_INT 0] /\
  _DVParse sample_debugger (cstr "r1z") 3 = [DV_ERROR].
Proof.
  split.
  - destruct (token_ending_early_is_accepted sample_debugger
                (cstr "r1") (cstr " 0x") 5 eq_refl eq_refl)
      as (_ & H & _); [discriminate | discriminate |].
    exact H.
  - destruct (token_ending_early_is_accepted sample_debugger
                (cstr "r1z") [] 3 eq_refl eq_refl)
      as (_ & H & _); [discriminate | discriminate |].
    exact H.
Defined.

(** ** Malformed tokens and the dispatcher *)

(** When the first node of the parsed arguments is an error, [_parse]
    prints the diagnostic, leaves the debugger as it is and returns 0
    without searching the command table. *)
Lemma parse_error_skips_dispatch ARMRun d line count firstSpace :
  strchr line " "%char = Some firstSpace ->
  dv_head_is_error
    (_DVParse d (skipn (S firstSpace) line)
       (size_sub (size_sub count (Z.of_nat firstSpace)) 1)) = true ->
  _parse ARMRun d line count = (0, d, [Printf "Parse error\n" []]).
Proof. intros Hs He. unfold _parse. rewrite Hs, He. reflexivity. Qed.

(** C1: on the line [p 1 zz] the malformed token is the second one; the
    parser returns the Integer token 1 followed by an error node, not a
    single error; its first node being an Integer, [_parse] prints no
    diagnostic, finds [p] in the command table and runs the handler, which
    prints the accepted value and then the unassigned value of the error
    node. *)
Theorem malformed_later_token_is_dispatched (ARMRun : ARMCore -> ARMCore)
    (d : ARMDebugger) :
  _DVParse d (cstr "1 zz") 4 = [DV_INT 1; DV_ERROR] /\
  _parse ARMRun d (input_line "p 1 zz") 6 =
  (1, d,
   [Printf " %u" [A_int 1]; Printf " %u" [A_indeterminate]; Printf "\n" []]).
Proof. split; reflexivity. Qed.

(** ** Breakpoint and watchpoint registration *)

Lemma ARMMemoryPtr_eqb_shim m :
  ARMMemoryPtr_eqb m MEMORY_SHIM = true <-> m = MEMORY_SHIM.
Proof. destruct m; simpl; split; congruence. Qed.

Lemma not_int_head dv :
  dv = [] \/ (exists n rest, dv = n :: rest /\ dv_type n <> INT_TYPE) ->
  dv_head_is_int dv = false.
Proof.
  intros [-> | (n & rest & -> & Hn)]; [reflexivity |].
  destruct n; simpl in *; congruence.
Qed.

(** C5: when the first argument token is absent or is not an Integer
    token, [_setBreakpoint] and [_setWatchpoint] report "Arguments missing"
    and return the debugger they were given: the breakpoint list, the
    watchpoint list and the memory interface of the CPU are unchanged. *)
Theorem missing_argument_mutates_nothing (d : ARMDebugger)
    (dv : DebugVector) :
  dv = [] \/ (exists n rest, dv = n :: rest /\ dv_type n <> INT_TYPE) ->
  _setBreakpoint d dv = (d, missing_arguments) /\
  _setWatchpoint d dv = (d, missing_arguments) /\
  (forall handler, handler = _setBreakpoint \/ handler = _setWatchpoint ->
     breakpoints (fst (handler d dv)) = breakpoints d /\
     watchpoints (memoryShim (fst (handler d dv))) = watchpoints (memoryShim d) /\
     memory (cpu (fst (handler d dv))) = memory (cpu d)).
Proof.
  intros H. apply not_int_head in H.
  assert (Hb : _setBreakpoint d dv = (d, missing_arguments))
    by (destruct dv as [| [| v | s] rest]; try discriminate H; reflexivity).
  assert (Hw : _setWatchpoint d dv = (d, missing_arguments))
    by (destruct dv as [| [| v | s] rest]; try discriminate H; reflexivity).
  repeat split; auto;
    match goal with
    | Hh : _ = _setBreakpoint \/ _ = _setWatchpoint |- _ =>
        destruct Hh as [-> | ->]; [rewrite Hb | rewrite Hw]; reflexivity
    end.
Qed.

Lemma missing_argument_mutates_nothing_witness :
  _setBreakpoint sample_debugger [] = (sample_debugger, missing_arguments) /\
  _setWatchpoint sample_debugger [DV_ERROR; DV_INT 4]
  = (sample_debugger, missing_arguments).
Proof.
  split.
  - apply (missing_argument_mutates_nothing sample_debugger []).
    left. reflexivity.
  - apply (missing_argument_mutates_nothing sample_debugger
             [DV_ERROR; DV_INT 4]).
    right. exists DV_ERROR, [DV_INT 4]. split; [reflexivity | discriminate].
Defined.

Lemma setWatchpoint_installed d v rest :
  memory (cpu d) = MEMORY_SHIM ->
  _setWatchpoint d (DV_INT v :: rest) =
  (set_watchpoints d (to_uint32 v :: watchpoints (memoryShim d)), []).
Proof. intros H. unfold _setWatchpoint. rewrite H. reflexivity. Qed.

Lemma setWatchpoint_first d v rest :
  memory (cpu d) <> MEMORY_SHIM ->
  _setWatchpoint d (DV_INT v :: rest) =
  (set_watchpoints (set_memory d MEMORY_SHIM)
     (to_uint32 v :: watchpoints (memoryShim d)),
   [Call_ARMDebuggerInstallMemoryShim]).
Proof.
  intros H. unfold _setWatchpoint.
  destruct (ARMMemoryPtr_eqb (memory (cpu d)) MEMORY_SHIM) eqn:E.
  - apply ARMMemoryPtr_eqb_shim in E. contradiction.
  - reflexivity.
Qed.

Lemma setWatchpoints_installed values : forall d,
  memory (cpu d) = MEMORY_SHIM ->
  snd (setWatchpoints d values) = [] /\
  memory (cpu (fst (setWatchpoints d values))) = MEMORY_SHIM /\
  watchpoints (memoryShim (fst (setWatchpoints d values)))
  = rev (map to_uint32 values) ++ watchpoints (memoryShim d).
Proof.
  induction values as [| v values IH]; intros d Hm.
  - simpl. auto.
  - cbn [setWatchpoints]. rewrite setWatchpoint_installed by exact Hm.
    specialize (IH (set_watchpoints d
                      (to_uint32 v :: watchpoints (memoryShim d))) Hm).
    destruct (setWatchpoints _ values) as [d2 t2].
    simpl in *. destruct IH as (-> & -> & ->).
    rewrite <- app_assoc. auto.
Qed.

(** C9: a successful [_setWatchpoint] calls the installer of the memory
    shim exactly when the memory interface of the CPU is not the shim, and
    in either case leaves the shim as the interface and puts the address at
    the head of the shim's watchpoint list; over a succession of
    registrations that starts without the shim the installer is therefore
    called once, by the first, and the list receives every address, the
    most recent first. *)
Theorem watchpoint_installs_shim_on_first_registration (d : ARMDebugger)
    (intValue : Z) (rest : DebugVector) (values : list Z) :
  memory (cpu d) <> MEMORY_SHIM ->
  _setWatchpoint d (DV_INT intValue :: rest) =
    (set_watchpoints (set_memory d MEMORY_SHIM)
       (to_uint32 intValue :: watchpoints (memoryShim d)),
     [Call_ARMDebuggerInstallMemoryShim]) /\
  (forall d', memory (cpu d') = MEMORY_SHIM ->
     _setWatchpoint d' (DV_INT intValue :: rest) =
     (set_watchpoints d'
        (to_uint32 intValue :: watchpoints (memoryShim d')), [])) /\
  snd (setWatchpoints d (intValue :: values))
  = [Call_ARMDebuggerInstallMemoryShim] /\
  memory (cpu (fst (setWatchpoints d (intValue :: values)))) = MEMORY_SHIM /\
  watchpoints (memoryShim (fst (setWatchpoints d (intValue :: values))))
  = rev (map to_uint32 (intValue :: values)) ++ watchpoints (memoryShim d).
Proof.
  intros Hm. split; [| split].
  - apply setWatchpoint_first. exact Hm.
  - intros d' Hd'. apply setWatchpoint_installed. exact Hd'.
  - cbn [setWatchpoints]. rewrite setWatchpoint_first by exact Hm.
    pose proof (setWatchpoints_installed values
                  (set_watchpoints (set_memory d MEMORY_SHIM)
                     (to_uint32 intValue :: watchpoints (memoryShim d)))
                  eq_refl) as H.
    destruct (setWatchpoints _ values) as [d2 t2].
    simpl in *. destruct H as (-> & -> & ->).
    rewrite <- app_assoc. auto.
Qed.

Lemma watchpoint_installs_shim_on_first_registration_witness :
  snd (setWatchpoints sample_debugger [16; 32; 48])
  = [Call_ARMDebuggerInstallMemoryShim] /\
  watchpoints (memoryShim (fst (setWatchpoints sample_debugger [16; 32; 48])))
  = [48; 32; 16].
Proof.
  destruct (watchpoint_installs_shim_on_first_registration sample_debugger
              16 [] [32; 48]) as (_ & _ & Ht & _ & Hw).
  - discriminate.
  - split; [exact Ht | exact Hw].
Defined.

(** ** The breakpoint check *)

Lemma scan_no_hit l len d :
  (forall A, In A l ->
     to_uint32 (A + len) <> to_uint32 (gpr (cpu d) ARM_PC)) ->
  checkBreakpoints_for l len d = (d, []).
Proof.
  induction l as [| B l IH]; intros H; cbn [checkBreakpoints_for].
  - reflexivity.
  - unfold uint32_add.
    destruct (Z.eqb_spec (to_uint32 (B + len))
                (to_uint32 (gpr (cpu d) ARM_PC))) as [E | E].
    + exfalso. apply (H B); [left; reflexivity | exact E].
    + apply IH. intros A HA. apply H. right. exact HA.
Qed.

(** The scan stops at the first record that matches: whatever follows it
    in the list, the result is the pause and one notice. *)
Lemma scan_first_hit pre A post len d :
  (forall B, In B pre ->
     to_uint32 (B + len) <> to_uint32 (gpr (cpu d) ARM_PC)) ->
  to_uint32 (A + len) = to_uint32 (gpr (cpu d) ARM_PC) ->
  checkBreakpoints_for (pre ++ A :: post) len d
  = (set_state d DEBUGGER_PAUSED, [hit_notice]).
Proof.
  induction pre as [| B pre IH]; intros Hpre HA;
    cbn [app checkBreakpoints_for]; unfold uint32_add.
  - rewrite HA, Z.eqb_refl. reflexivity.
  - destruct (Z.eqb_spec (to_uint32 (B + len))
                (to_uint32 (gpr (cpu d) ARM_PC))) as [E | E].
    + exfalso. apply (Hpre B); [left; reflexivity | exact E].
    + apply IH; [| exact HA]. intros C HC. apply Hpre. right. exact HC.
Qed.

Lemma first_hit_split (P : Z -> Prop) (dec : forall A, {P A} + {~ P A}) l :
  (exists A, In A l /\ P A) ->
  exists pre A post, l = pre ++ A :: post /\ P A /\
                     forall B, In B pre -> ~ P B.
Proof.
  induction l as [| B l IH]; intros (A & HIn & HA).
  - destruct HIn.
  - destruct (dec B) as [HB | HB].
    + exists [], B, l. split; [reflexivity |]. split; [exact HB |].
      intros C HC. destruct HC.
    + destruct HIn as [-> | HIn]; [contradiction |].
      destruct IH as (pre & A' & post & -> & HA' & Hpre);
        [exists A; auto |].
      exists (B :: pre), A', post. split; [reflexivity |].
      split; [exact HA' |].
      intros C [<- | HC]; auto.
Qed.

Lemma scan_hit l len d :
  (exists A, In A l /\
     to_uint32 (A + len) = to_uint32 (gpr (cpu d) ARM_PC)) ->
  checkBreakpoints_for l len d = (set_state d DEBUGGER_PAUSED, [hit_notice]).
Proof.
  intros H.
  apply (first_hit_split
           (fun A => to_uint32 (A + len) = to_uint32 (gpr (cpu d) ARM_PC)))
    in H.
  - destruct H as (pre & A & post & -> & HA & Hpre).
    apply scan_first_hit; assumption.
  - intros A. apply Z.eq_dec.
Qed.

(** C2: in the loop that runs while the state is Running and the
    breakpoint list is not empty, each pass steps the CPU and then checks
    the breakpoints against the program counter the step left, with the
    instruction length 4 when the T bit is clear and 2 when it is set.  When
    some record at [A] has [A + instructionLength] equal to the program
    counter as 32-bit words, the state becomes Paused, one notice is
    printed and the loop ends; when no record has, the state stays Running
    and nothing is printed.  The scan stops at the first matching record:
    the records behind it do not affect the result. *)
Theorem breakpoint_pauses_exactly_on_match (ARMRun : ARMCore -> ARMCore)
    (d : ARMDebugger) (fuel : nat) :
  state d = DEBUGGER_RUNNING -> breakpoints d <> [] ->
  let d1 := set_cpu d (ARMRun (cpu d)) in
  let len := instruction_length (execution_mode (cpu d1)) in
  len = (if psr_t (cpsr (cpu d1)) then 2 else 4) /\
  run_inner ARMRun (S fuel) d =
    (let '(d2, t2) := run_checked_body ARMRun d in
     match run_checked ARMRun fuel d2 with
     | Some (d3, t3) => Some (d3, t2 ++ t3)
     | None => None
     end) /\
  ((exists A, In A (breakpoints d) /\ breakpoint_hit d1 A) ->
     run_checked_body ARMRun d
     = (set_state d1 DEBUGGER_PAUSED, [Call_ARMRun; hit_notice]) /\
     run_inner ARMRun (S fuel) d
     = Some (set_state d1 DEBUGGER_PAUSED, [Call_ARMRun; hit_notice])) /\
  ((forall A, In A (breakpoints d) -> ~ breakpoint_hit d1 A) ->
     run_checked_body ARMRun d = (d1, [Call_ARMRun]) /\
     state d1 = DEBUGGER_RUNNING) /\
  (forall pre A post,
     (forall B, In B pre -> ~ breakpoint_hit d1 B) -> breakpoint_hit d1 A ->
     checkBreakpoints_for (pre ++ A :: post) len d1
     = (set_state d1 DEBUGGER_PAUSED, [hit_notice])) /\
  (forall A, 0 <= A -> A + len < 2 ^ 32 ->
     0 <= gpr (cpu d1) ARM_PC < 2 ^ 32 ->
     (breakpoint_hit d1 A <-> A + len = gpr (cpu d1) ARM_PC)).
Proof.
  intros Hst Hbp d1 len.
  assert (Hlen : len = (if psr_t (cpsr (cpu d1)) then 2 else 4)).
  { unfold len, execution_mode. destruct (psr_t (cpsr (cpu d1))); reflexivity. }
  assert (Hinner : run_inner ARMRun (S fuel) d =
    (let '(d2, t2) := run_checked_body ARMRun d in
     match run_checked ARMRun fuel d2 with
     | Some (d3, t3) => Some (d3, t2 ++ t3)
     | None => None
     end)).
  { unfold run_inner. destruct (breakpoints d) as [| b l]; [congruence |].
    cbn [run_checked]. rewrite Hst.
    destruct (run_checked_body ARMRun d) as [d2 t2]. reflexivity. }
  split; [exact Hlen |]. split; [exact Hinner |].
  split; [| split; [| split]].
  - intros Hhit.
    assert (Hbody : run_checked_body ARMRun d
                    = (set_state d1 DEBUGGER_PAUSED, [Call_ARMRun; hit_notice])).
    { unfold run_checked_body, _checkBreakpoints. fold d1. fold len.
      change (breakpoints d1) with (breakpoints d).
      rewrite (scan_hit (breakpoints d) len d1 Hhit). reflexivity. }
    split; [exact Hbody |].
    rewrite Hinner, Hbody. destruct fuel; reflexivity.
  - intros Hno. split; [| exact Hst].
    unfold run_checked_body, _checkBreakpoints. fold d1. fold len.
    change (breakpoints d1) with (breakpoints d).
    rewrite (scan_no_hit (breakpoints d) len d1 Hno). reflexivity.
  - intros pre A post Hpre HA. apply scan_first_hit; assumption.
  - intros A HA HAl Hpc. unfold breakpoint_hit. fold len.
    assert (Hpos : 0 <= len)
      by (rewrite Hlen; destruct (psr_t (cpsr (cpu d1))); lia).
    rewrite !to_uint32_small by lia. reflexivity.
Qed.

Lemma breakpoint_pauses_exactly_on_match_witness :
  run_inner sample_ARMRun 8
    (set_breakpoints (set_state sample_debugger DEBUGGER_RUNNING)
       [4096; 115; 115])
  = Some
      (set_state
         (set_cpu
            (set_breakpoints (set_state sample_debugger DEBUGGER_RUNNING)
               [4096; 115; 115])
            (sample_ARMRun sample_cpu))
         DEBUGGER_PAUSED,
       [Call_ARMRun; hit_notice]).
Proof.
  apply (breakpoint_pauses_exactly_on_match sample_ARMRun
           (set_breakpoints (set_state sample_debugger DEBUGGER_RUNNING)
              [4096; 115; 115]) 7).
  - reflexivity.
  - discriminate.
  - exists 115. split; [right; left; reflexivity | reflexivity].
Defined.

(** ** The run loop *)

Lemma run_guard_iff d :
  run_guard d = true <->
  state d = DEBUGGER_RUNNING \/ state d = DEBUGGER_PAUSED.
Proof.
  unfold run_guard. destruct (state d); simpl; split; intros H;
    auto; try discriminate; destruct H; discriminate.
Qed.

Lemma run_guard_false d :
  run_guard d = false <->
  state d = DEBUGGER_EXITING \/ state d = DEBUGGER_SHUTDOWN.
Proof.
  unfold run_guard. destruct (state d); simpl; split; intros H;
    auto; try discriminate; destruct H; discriminate.
Qed.

Lemma run_inner_steps_first ARMRun fuel d d' t :
  state d = DEBUGGER_RUNNING ->
  run_inner ARMRun fuel d = Some (d', t) ->
  exists t', t = Call_ARMRun :: t'.
Proof.
  intros Hst. unfold run_inner.
  destruct (breakpoints d) as [| b l]; destruct fuel as [| fuel];
    cbn [run_free run_checked]; rewrite Hst; try discriminate.
  - destruct (run_free ARMRun fuel _) as [[d2 t2] |]; [| discriminate].
    intros [= <- <-]. eauto.
  - unfold run_checked_body.
    destruct (_checkBreakpoints _) as [d2 t2].
    destruct (run_checked ARMRun fuel d2) as [[d3 t3] |]; [| discriminate].
    intros [= <- <-]. simpl. eauto.
Qed.

(** A call of the outer loop that returns leaves the debugger Exiting or
    Shutdown. *)
Lemma run_while_final ARMRun fuel : forall input d input' d' t,
  ARMDebuggerRun_while ARMRun fuel input d = Some (input', d', t) ->
  state d' = DEBUGGER_EXITING \/ state d' = DEBUGGER_SHUTDOWN.
Proof.
  induction fuel as [| fuel IH]; intros input d input' d' t;
    cbn [ARMDebuggerRun_while]; destruct (run_guard d) eqn:G;
    try discriminate;
    try (intros [= <- <- <-]; apply run_guard_false; exact G).
  destruct (run_inner ARMRun fuel d) as [[d1 t1] |]; [| discriminate].
  destruct (state d1) eqn:S1.
  - destruct (_commandLine ARMRun input d1) as [[input2 d2] t2].
    destruct (ARMDebuggerRun_while ARMRun fuel input2 d2)
      as [[[input3 d3] t3] |] eqn:E; [| discriminate].
    intros [= <- <- <-]. apply (IH _ _ _ _ _ E).
  - destruct (ARMDebuggerRun_while ARMRun fuel input d1)
      as [[[input3 d3] t3] |] eqn:E; [| discriminate].
    intros [= <- <- <-]. apply (IH _ _ _ _ _ E).
  - intros [= <- <- <-]. left. exact S1.
  - intros [= <- <- <-]. right. exact S1.
Qed.

Lemma run_while_stopped ARMRun fuel input d :
  run_guard d = false ->
  ARMDebuggerRun_while ARMRun fuel input d = Some (input, d, []).
Proof.
  intros G. destruct fuel; cbn [ARMDebuggerRun_while]; rewrite G; reflexivity.
Qed.

Lemma run_while_steps_first ARMRun fuel input d r t :
  state d = DEBUGGER_RUNNING ->
  ARMDebuggerRun_while ARMRun fuel input d = Some (r, t) ->
  exists t', t = Call_ARMRun :: t'.
Proof.
  intros Hst. destruct fuel as [| fuel]; cbn [ARMDebuggerRun_while];
    unfold run_guard; rewrite Hst; simpl; [discriminate |].
  destruct (run_inner ARMRun fuel d) as [[d1 t1] |] eqn:E; [| discriminate].
  destruct (run_inner_steps_first ARMRun fuel d d1 t1 Hst E) as [t' ->].
  destruct (state d1).
  - destruct (_commandLine ARMRun input d1) as [[input2 d2] t2].
    destruct (ARMDebuggerRun_while ARMRun fuel input2 d2)
      as [[[input3 d3] t3] |]; [| discriminate].
    intros [= <- <-]. simpl. eauto.
  - destruct (ARMDebuggerRun_while ARMRun fuel input d1)
      as [[[input3 d3] t3] |]; [| discriminate].
    intros [= <- <-]. simpl. eauto.
  - intros [= <- <-]. eauto.
  - intros [= <- <-]. eauto.
Qed.

(** C6: [ARMDebuggerRun] turns Exiting into Running before its loop, whose
    guard then holds, so that the loop body runs and begins with a step of
    the CPU; it leaves Shutdown as it is and then returns at once, with the
    debugger and the input untouched and nothing done.  The guard of the
    loop holds exactly in the states Running and Paused, the loop does
    nothing when it fails, and a call that returns leaves the state Exiting
    or Shutdown. *)
Theorem run_entry_converts_exiting_only (ARMRun : ARMCore -> ARMCore)
    (fuel : nat) (input : list cstring) (d : ARMDebugger) :
  (state d = DEBUGGER_EXITING ->
     ARMDebuggerRun ARMRun fuel input d
     = ARMDebuggerRun_while ARMRun fuel input
         (set_state d DEBUGGER_RUNNING) /\
     run_guard (set_state d DEBUGGER_RUNNING) = true /\
     (forall r t, ARMDebuggerRun ARMRun fuel input d = Some (r, t) ->
        exists t', t = Call_ARMRun :: t')) /\
  (state d = DEBUGGER_SHUTDOWN ->
     ARMDebuggerRun ARMRun fuel input d = Some (input, d, [])) /\
  (run_guard d = true <->
     state d = DEBUGGER_RUNNING \/ state d = DEBUGGER_PAUSED) /\
  (run_guard d = false ->
     ARMDebuggerRun_while ARMRun fuel input d = Some (input, d, [])) /\
  (forall input' d' t,
     ARMDebuggerRun ARMRun fuel input d = Some (input', d', t) ->
     state d' = DEBUGGER_EXITING \/ state d' = DEBUGGER_SHUTDOWN).
Proof.
  split; [| split; [| split; [| split]]].
  - intros Hst. unfold ARMDebuggerRun. rewrite Hst.
    split; [reflexivity |]. split; [reflexivity |].
    intros r t H.
    apply (run_while_steps_first ARMRun fuel input
             (set_state d DEBUGGER_RUNNING) r t eq_refl H).
  - intros Hst. unfold ARMDebuggerRun. rewrite Hst.
    apply run_while_stopped. unfold run_guard. rewrite Hst. reflexivity.
  - apply run_guard_iff.
  - apply run_while_stopped.
  - intros input' d' t. unfold ARMDebuggerRun. apply run_while_final.
Qed.

Lemma run_entry_converts_exiting_only_witness :
  ARMDebuggerRun sample_ARMRun 4 [input_line "c"]
    (set_state sample_debugger DEBUGGER_SHUTDOWN)
  = Some ([input_line "c"], set_state sample_debugger DEBUGGER_SHUTDOWN, [])
  /\
  ARMDebuggerRun sample_ARMRun 4 [input_line "q"]
    (set_breakpoints (set_state sample_debugger DEBUGGER_EXITING) [115])
  = ARMDebuggerRun_while sample_ARMRun 4 [input_line "q"]
      (set_state
         (set_breakpoints (set_state sample_debugger DEBUGGER_EXITING) [115])
         DEBUGGER_RUNNING)
  /\
  (exists input' d' t',
     ARMDebuggerRun sample_ARMRun 4 [input_line "q"]
       (set_breakpoints (set_state sample_debugger DEBUGGER_EXITING) [115])
     = Some (input', d', Call_ARMRun :: t') /\
     state d' = DEBUGGER_SHUTDOWN).
Proof.
  split; [| split].
  - apply (run_entry_converts_exiting_only sample_ARMRun 4 [input_line "c"]
             (set_state sample_debugger DEBUGGER_SHUTDOWN)).
    reflexivity.
  - apply (run_entry_converts_exiting_only sample_ARMRun 4 [input_line "q"]
             (set_breakpoints (set_state sample_debugger DEBUGGER_EXITING)
                [115])).
    reflexivity.
  - destruct (run_entry_converts_exiting_only sample_ARMRun 4
                [input_line "q"]
                (set_breakpoints (set_state sample_debugger DEBUGGER_EXITING)
                   [115])) as (He & _ & _ & _ & Hfinal).
    destruct (He eq_refl) as (_ & _ & Hfirst).
    destruct (ARMDebuggerRun sample_ARMRun 4 [input_line "q"]
                (set_breakpoints (set_state sample_debugger DEBUGGER_EXITING)
                   [115])) as [[[input' d'] t] |] eqn:E;
      [| discriminate E].
    destruct (Hfirst _ _ eq_refl) as [t' ->].
    exists input', d', t'. split; [reflexivity |].
    destruct (Hfinal _ _ _ eq_refl) as [Hs | Hs]; [| exact Hs].
    injection E as _ <- _. discriminate Hs.
Defined.

(** ** The read-eval-print loop *)

Lemma commandLine_while_el_gets ARMRun input d :
  commandLine_while ARMRun input d =
  match state d with
  | DEBUGGER_PAUSED =>
      match el_gets input with
      | None => (input, set_state d DEBUGGER_EXITING, [])
      | Some (line, count, input') =>
          let '(d1, t1) := commandLine_body ARMRun d line count in
          let '(input2, d2, t2) := commandLine_while ARMRun input' d1 in
          (input2, d2, t1 ++ t2)
      end
  | _ => (input, d, [])
  end.
Proof. destruct input; reflexivity. Qed.

Lemma find_command_In (table : list (string * DebuggerCommand)) line n cmd :
  find_command table line n = Some cmd -> In cmd (map snd table).
Proof.
  induction table as [| [name command] table IH]; cbn [find_command map snd].
  - discriminate.
  - destruct (negb (strlen (cstr name) =? n)); [right; auto |].
    destruct (strncasecmp (cstr name) line (Z.to_nat n) =? 0).
    + intros [= <-]. left. reflexivity.
    + right. auto.
Qed.

(** No handler of the table touches the history. *)
Lemma commands_keep_histate ARMRun cmd :
  In cmd (map snd (_debuggerCommands ARMRun)) ->
  forall d dv, histate (fst (cmd d dv)) = histate d.
Proof.
  cbn [_debuggerCommands map snd]. intros H d dv.
  repeat (destruct H as [<- | H]); try contradiction;
    try reflexivity;
    try (destruct dv as [| [| v | s] rest]; reflexivity).
  all: destruct dv as [| [| v | s] rest]; try reflexivity;
    unfold _setWatchpoint;
    destruct (ARMMemoryPtr_eqb (memory (cpu d)) MEMORY_SHIM); reflexivity.
Qed.

Lemma parse_unfold ARMRun d line count :
  _parse ARMRun d line count =
  if dv_head_is_error (arguments_of d line count)
  then (0, d, [Printf "Parse error\n" []])
  else dispatch ARMRun d line (command_length line count)
         (arguments_of d line count).
Proof.
  unfold _parse, arguments_of, command_length.
  destruct (strchr line " ") as [firstSpace |]; cbv zeta.
  - reflexivity.
  - cbn [dv_head_is_error]. reflexivity.
Qed.

Lemma dispatch_result ARMRun d line n dv :
  match find_command (_debuggerCommands ARMRun) line n with
  | Some cmd =>
      dispatch ARMRun d line n dv = (1, fst (cmd d dv), snd (cmd d dv))
  | None =>
      dispatch ARMRun d line n dv = (0, d, [Printf "Command not found\n" []])
  end.
Proof.
  unfold dispatch.
  destruct (find_command (_debuggerCommands ARMRun) line n) as [cmd |].
  - destruct (cmd d dv). reflexivity.
  - reflexivity.
Qed.

Lemma parse_keeps_histate ARMRun d line count :
  histate (snd (fst (_parse ARMRun d line count))) = histate d.
Proof.
  rewrite parse_unfold.
  destruct (dv_head_is_error (arguments_of d line count)); [reflexivity |].
  pose proof (dispatch_result ARMRun d line (command_length line count)
                (arguments_of d line count)) as H.
  destruct (find_command (_debuggerCommands ARMRun) line
              (command_length line count)) as [cmd |] eqn:E.
  - rewrite H. cbn [fst snd]. apply (commands_keep_histate ARMRun).
    apply (find_command_In _ _ _ _ E).
  - rewrite H. reflexivity.
Qed.

(** [_parse] returns 1 exactly when it ran a handler: the arguments do not
    start with an error node and the command is in the table. *)
Lemma parse_result ARMRun d line count :
  let r := fst (fst (_parse ARMRun d line count)) in
  (r = 0 \/ r = 1) /\
  (r = 1 <->
   dv_head_is_error (arguments_of d line count) = false /\
   find_command (_debuggerCommands ARMRun) line (command_length line count)
   <> None).
Proof.
  cbv zeta. rewrite parse_unfold.
  destruct (dv_head_is_error (arguments_of d line count)).
  - cbn [fst snd]. split; [left; reflexivity |].
    split; [discriminate | intros [H _]; discriminate H].
  - pose proof (dispatch_result ARMRun d line (command_length line count)
                  (arguments_of d line count)) as H.
    destruct (find_command (_debuggerCommands ARMRun) line
                (command_length line count)) as [cmd |]; rewrite H;
      cbn [fst snd].
    + split; [right; reflexivity |].
      split; [intros _; split; [reflexivity | discriminate] | reflexivity].
    + split; [left; reflexivity |].
      split; [discriminate | intros [_ Hn]; congruence].
Qed.

Lemma strlen_no_NUL s : no_NUL s = true -> strlen s = strsize s.
Proof.
  unfold no_NUL, strsize. induction s as [| c s IH]; cbn [forallb strlen].
  - reflexivity.
  - intros H. apply andb_prop in H. destruct H as [Hc Hs].
    apply negb_true_iff in Hc. rewrite Hc, IH by exact Hs.
    change (List.length (c :: s)) with (S (List.length s)). lia.
Qed.

(** C7: in one pass of the loop of [_commandLine], a line that starts with
    a newline makes the loop parse and dispatch the most recent history
    entry as it is stored, with the length a line read from the input gets,
    leaving the history as it was, and it does nothing when the history is
    empty; any other line is parsed and dispatched, and becomes the most
    recent history entry if [_parse] returned 1, which it does exactly when
    the arguments did not start with an error node and the command was
    found; otherwise the history is unchanged. *)
Theorem blank_line_repeats_and_success_is_recorded
    (ARMRun : ARMCore -> ARMCore) (d : ARMDebugger) (line : cstring)
    (count : Z) :
  (char_at0 line = LF ->
     (forall str h, histate d = str :: h ->
        commandLine_body ARMRun d line count
        = (snd (fst (_parse ARMRun d str (size_sub (strlen str) 1))),
           snd (_parse ARMRun d str (size_sub (strlen str) 1))) /\
        histate (fst (commandLine_body ARMRun d line count)) = str :: h /\
        (no_NUL str = true ->
         size_sub (strlen str) 1 = to_size_t (strsize str - 1))) /\
     (histate d = [] -> commandLine_body ARMRun d line count = (d, []))) /\
  (char_at0 line <> LF ->
     let result := _parse ARMRun d line (to_size_t (count - 1)) in
     let r := fst (fst result) in
     let d' := fst (commandLine_body ARMRun d line count) in
     snd (commandLine_body ARMRun d line count) = snd result /\
     (r = 1 ->
      histate d' = history_enter (histate d) line /\
      history_first (histate d') = Some line) /\
     (r <> 1 -> histate d' = histate d) /\
     (r = 1 <->
      dv_head_is_error (arguments_of d line (to_size_t (count - 1))) = false
      /\ find_command (_debuggerCommands ARMRun) line
           (command_length line (to_size_t (count - 1))) <> None)).
Proof.
  split.
  - intros Hlf. unfold commandLine_body. rewrite Hlf.
    destruct (Ascii.eqb LF LF) eqn:E; [| discriminate E]. split.
    + intros str h Hh. rewrite Hh. cbn [history_first].
      pose proof (parse_keeps_histate ARMRun d str
                    (size_sub (strlen str) 1)) as Hk.
      destruct (_parse ARMRun d str (size_sub (strlen str) 1))
        as [[r d'] t].
      cbn [fst snd] in *. split; [reflexivity |].
      split; [congruence |].
      intros Hn. unfold size_sub. rewrite (strlen_no_NUL str Hn).
      reflexivity.
    + intros Hh. rewrite Hh. reflexivity.
  - intros Hlf. cbv zeta. unfold commandLine_body.
    destruct (Ascii.eqb (char_at0 line) LF) eqn:E.
    { apply Ascii.eqb_eq in E. contradiction. }
    pose proof (parse_keeps_histate ARMRun d line (to_size_t (count - 1)))
      as Hk.
    destruct (parse_result ARMRun d line (to_size_t (count - 1)))
      as [H01 Hiff].
    cbv zeta in H01, Hiff.
    destruct (_parse ARMRun d line (to_size_t (count - 1))) as [[r d'] t].
    cbn [fst snd] in *.
    split; [| split; [| split]].
    + destruct (negb (r =? 0)); reflexivity.
    + intros ->. cbn [Z.eqb negb fst histate set_histate].
      rewrite Hk. split; reflexivity.
    + intros Hr. destruct H01 as [-> | ->]; [| congruence].
      cbn [Z.eqb negb fst]. exact Hk.
    + exact Hiff.
Qed.

Lemma blank_line_repeats_and_success_is_recorded_witness :
  commandLine_body sample_ARMRun
    (set_histate sample_debugger [input_line "p 5"]) [LF] 1
  = (set_histate sample_debugger [input_line "p 5"],
     [Printf " %u" [A_int 5]; Printf "\n" []])
  /\
  histate (fst (commandLine_body sample_ARMRun sample_debugger
                  (input_line "b 16") 5))
  = [input_line "b 16"]
  /\
  histate (fst (commandLine_body sample_ARMRun sample_debugger
                  (input_line "b zz") 5))
  = [].
Proof.
  split; [| split].
  - destruct (blank_line_repeats_and_success_is_recorded sample_ARMRun
                (set_histate sample_debugger [input_line "p 5"]) [LF] 1)
      as [H _].
    destruct (H eq_refl) as [Hrepeat _].
    destruct (Hrepeat (input_line "p 5") [] eq_refl) as [Hbody _].
    rewrite Hbody. reflexivity.
  - destruct (blank_line_repeats_and_success_is_recorded sample_ARMRun
                sample_debugger (input_line "b 16") 5) as [_ H].
    destruct H as (_ & Happend & _); [discriminate |].
    destruct (Happend eq_refl) as [Hh _]. rewrite Hh. reflexivity.
  - destruct (blank_line_repeats_and_success_is_recorded sample_ARMRun
                sample_debugger (input_line "b zz") 5) as [_ H].
    destruct H as (_ & _ & Hkeep & _); [discriminate |].
    rewrite Hkeep; [reflexivity | discriminate].
Defined.

(** * Further properties of the parser *)

Lemma to_int32_range z : - 2 ^ 31 <= to_int32 z < 2 ^ 31.
Proof.
  unfold to_int32. pose proof (to_uint32_range z) as H.
  destruct (Z.ltb_spec (to_uint32 z) (2 ^ 31)); lia.
Qed.

Lemma integers_then_error_int v dv :
  integers_then_error dv = true ->
  integers_then_error (DV_INT (to_int32 v) :: dv) = true.
Proof.
  intros H. cbn [integers_then_error]. rewrite H.
  pose proof (to_int32_range v) as [Hlo Hhi].
  apply Z.leb_le in Hlo. apply Z.ltb_lt in Hhi. rewrite Hlo, Hhi.
  reflexivity.
Qed.

Lemma loop_shape d s : forall len st cur,
  integers_then_error (DVParse_loop d s len st cur) = true.
Proof.
  induction s as [| c s IH]; intros len st cur; cbn [DVParse_loop].
  - destruct (is_PARSE_ERROR st); [reflexivity |].
    apply integers_then_error_int. reflexivity.
  - destruct (DVParse_continue c len st).
    + destruct (DVParse_switch d st c cur) as [st1 cur1]. apply IH.
    + destruct (is_PARSE_ERROR st); [reflexivity |].
      apply integers_then_error_int.
      destruct (Ascii.eqb c " "); [| reflexivity].
      cbv zeta. destruct (size_sub len 1 <? 1); [reflexivity | apply IH].
Qed.

(** X1: whatever the string and the length, the vector [_DVParse] returns
    is a run of Integer nodes, each within the range of [int32_t],
    followed by at most one error node, which is then the last node: an
    error ends the vector, and no text node is ever built. *)
Theorem parser_output_is_integers_then_error (d : ARMDebugger)
    (string : cstring) (length : Z) :
  integers_then_error (_DVParse d string length) = true.
Proof.
  unfold _DVParse. destruct (length <? 1); [reflexivity | apply loop_shape].
Qed.

Lemma to_size_t_small z : 0 <= z < SIZE_MODULUS -> to_size_t z = z.
Proof. intros H. unfold to_size_t. apply Z.mod_small. exact H. Qed.

Lemma strsize_app a b : strsize (a ++ b) = strsize a + strsize b.
Proof. unfold strsize. rewrite length_app. lia. Qed.

Lemma strsize_cons c s : strsize (c :: s) = 1 + strsize s.
Proof.
  unfold strsize. change (List.length (c :: s)) with (S (List.length s)). lia.
Qed.

Lemma strsize_nonneg s : 0 <= strsize s.
Proof. unfold strsize. lia. Qed.

Lemma token_node_cases d t :
  token_node d t = DV_ERROR \/ exists v, token_node d t = DV_INT v.
Proof.
  unfold token_node. destruct (run_token d t PARSE_ROOT 0) as [st cur].
  destruct (is_PARSE_ERROR st); eauto.
Qed.

Lemma DVParse_token_node d t tail len :
  token_chars t = true -> ends_token tail (len - strsize t) = true ->
  strsize t <= len -> 1 <= len ->
  _DVParse d (t ++ tail) len =
  match token_node d t with
  | DV_ERROR => [DV_ERROR]
  | n => n :: after_token d tail (len - strsize t)
  end.
Proof.
  intros Ht He Hl H1. rewrite DVParse_token by assumption.
  unfold token_node. destruct (run_token d t PARSE_ROOT 0) as [st cur].
  destruct (is_PARSE_ERROR st); reflexivity.
Qed.

Lemma join_tokens_cons t t2 ts :
  join_tokens (t :: t2 :: ts) = t ++ " "%char :: join_tokens (t2 :: ts).
Proof. reflexivity. Qed.

Lemma tokens_until_first_error (d : ARMDebugger)
    (ts : list cstring) :
  forallb token_chars ts = true -> last ts [] <> [] ->
  strsize (join_tokens ts) < SIZE_MODULUS ->
  _DVParse d (join_tokens ts) (strsize (join_tokens ts))
  = nodes_until_error d ts.
Proof.
  induction ts as [| t ts IH]; intros Htok Hlast Hsize.
  - cbn in Hlast. congruence.
  - cbn [forallb] in Htok. apply andb_prop in Htok. destruct Htok as [Ht Hts].
    destruct ts as [| t2 ts].
    + cbn [join_tokens nodes_until_error]. cbn [last] in Hlast.
      rewrite DVParse_single by assumption. unfold token_node.
      destruct (run_token d t PARSE_ROOT 0) as [st cur].
      destruct (is_PARSE_ERROR st); reflexivity.
    + rewrite join_tokens_cons in *. cbn [nodes_until_error].
      set (rest := join_tokens (t2 :: ts)) in *.
      rewrite strsize_app, strsize_cons in Hsize.
      pose proof (strsize_nonneg t) as Ht0.
      pose proof (strsize_nonneg rest) as Hr0.
      rewrite DVParse_token_node;
        [ | exact Ht | reflexivity
          | rewrite strsize_app, strsize_cons; lia
          | rewrite strsize_app, strsize_cons; lia ].
      destruct (token_node_cases d t) as [-> | [v ->]]; [reflexivity |].
      f_equal. cbn [after_token].
      destruct (Ascii.eqb " " " ") eqn:E; [| discriminate E].
      replace (size_sub (strsize (t ++ " "%char :: rest) - strsize t) 1)
        with (strsize rest).
      * apply IH; [exact Hts | exact Hlast | lia].
      * unfold size_sub. rewrite strsize_app, strsize_cons.
        rewrite to_size_t_small; lia.
Qed.

(** X2: an argument string made of tokens separated by single spaces, the
    last of them not empty, is parsed token by token from left to right:
    the result holds the node of each token in order up to the first token
    on which the state machine fails, whose error node ends it; the tokens
    before the failing one are kept and those after it are not examined. *)
Theorem parser_follows_tokens_until_first_error (d : ARMDebugger)
    (ts : list cstring) :
  forallb token_chars ts = true -> last ts [] <> [] ->
  strsize (join_tokens ts) < SIZE_MODULUS ->
  _DVParse d (join_tokens ts) (strsize (join_tokens ts))
  = nodes_until_error d ts.
Proof. exact (tokens_until_first_error d ts). Qed.

Lemma parser_follows_tokens_until_first_error_witness :
  _DVParse sample_debugger (cstr "7 r2  zz 9") 10
  = [DV_INT 7; DV_INT 102; DV_INT 0; DV_ERROR].
Proof.
  apply (parser_follows_tokens_until_first_error sample_debugger
           [cstr "7"; cstr "r2"; []; cstr "zz"; cstr "9"]).
  - reflexivity.
  - discriminate.
  - reflexivity.
Defined.

Lemma to_int32_to_uint32_any z : to_int32 (to_uint32 z) = to_int32 z.
Proof. unfold to_int32. rewrite to_uint32_idem. reflexivity. Qed.

Lemma literal_is_token d s v :
  literal_value s = Some v ->
  token_chars s = true /\ s <> [] /\ token_node d s = DV_INT (to_int32 v).
Proof.
  intros Hv.
  assert (Hn : token_node d s = DV_INT (to_int32 v)).
  { destruct (run_literal d s v Hv) as [Hst Hcur]. unfold token_node.
    destruct (run_token d s PARSE_ROOT 0) as [st cur]. cbn [fst snd] in *.
    apply is_PARSE_ERROR_false in Hst. rewrite Hst, Hcur.
    rewrite to_int32_to_uint32_any. reflexivity. }
  split; [| split; [| exact Hn]].
  - unfold literal_value in Hv. destruct (is_decimal_literal s) eqn:Ed.
    + apply (decimal_literal_token s Ed).
    + destruct (hex_digits_of s) as [[| h hs] |] eqn:Eh; try discriminate.
      destruct (forallb is_hex_digit (h :: hs)) eqn:Ef; [| discriminate].
      destruct (run_hex_prefix d s (h :: hs) Eh) as (p & -> & Hp & _).
      unfold token_chars in *. rewrite forallb_app, Hp.
      apply (forallb_token_chars is_hex_digit);
        [apply hex_digit_not_terminator | exact Ef].
  - intros ->. discriminate Hv.
Qed.

Lemma literals_nodes d ts vs :
  Forall2 (fun t v => literal_value t = Some v) ts vs ->
  forallb token_chars ts = true /\
  (ts <> [] -> last ts [] <> []) /\
  nodes_until_error d ts = map (fun v => DV_INT (to_int32 v)) vs.
Proof.
  induction 1 as [| t v ts vs Hv Hrest IH].
  - repeat split. congruence.
  - destruct IH as (Htok & Hlast & Hnodes).
    destruct (literal_is_token d t v Hv) as (Ht & Hne & Hn).
    split; [| split].
    + cbn [forallb]. rewrite Ht, Htok. reflexivity.
    + intros _. destruct ts as [| t2 ts]; [exact Hne |].
      apply Hlast. discriminate.
    + cbn [nodes_until_error map]. rewrite Hn, Hnodes. reflexivity.
Qed.

Lemma literal_sequence_values (d : ARMDebugger)
    (ts : list cstring) (vs : list Z) :
  ts <> [] ->
  Forall2 (fun t v => literal_value t = Some v) ts vs ->
  strsize (join_tokens ts) < SIZE_MODULUS ->
  _DVParse d (join_tokens ts) (strsize (join_tokens ts))
  = map (fun v => DV_INT (to_int32 v)) vs /\
  map (fun n => match n with DV_INT i => to_uint32 i | _ => 0 end)
      (_DVParse d (join_tokens ts) (strsize (join_tokens ts)))
  = map (fun v => v mod 2 ^ 32) vs.
Proof.
  intros Hne Hlit Hsize.
  destruct (literals_nodes d ts vs Hlit) as (Htok & Hlast & Hnodes).
  rewrite tokens_until_first_error; auto.
  rewrite Hnodes. split; [reflexivity |].
  rewrite map_map. apply map_ext. intros v. apply to_uint32_to_int32.
Qed.

(** X3: an argument string made of literals of the grammar separated by
    single spaces parses to one Integer node for each literal, in the
    order of the string, each holding the value of its literal as a 32-bit
    word. *)
Theorem literal_sequence_parses_to_its_values (d : ARMDebugger)
    (ts : list cstring) (vs : list Z) :
  ts <> [] ->
  Forall2 (fun t v => literal_value t = Some v) ts vs ->
  strsize (join_tokens ts) < SIZE_MODULUS ->
  _DVParse d (join_tokens ts) (strsize (join_tokens ts))
  = map (fun v => DV_INT (to_int32 v)) vs /\
  map (fun n => match n with DV_INT i => to_uint32 i | _ => 0 end)
      (_DVParse d (join_tokens ts) (strsize (join_tokens ts)))
  = map (fun v => v mod 2 ^ 32) vs.
Proof. exact (literal_sequence_values d ts vs). Qed.

Lemma literal_sequence_parses_to_its_values_witness :
  _DVParse sample_debugger (cstr "5 0x10 $ff 4294967301") 21
  = [DV_INT 5; DV_INT 16; DV_INT 255; DV_INT 5].
Proof.
  apply (literal_sequence_parses_to_its_values sample_debugger
           [cstr "5"; cstr "0x10"; cstr "$ff"; cstr "4294967301"]
           [5; 16; 255; 4294967301]).
  - discriminate.
  - repeat constructor.
  - reflexivity.
Defined.

(** The loop does not read past the length it is given as long as the
    character at that position is not a space. *)
Lemma loop_ignores_rest d s : forall extra st cur,
  strsize s < SIZE_MODULUS -> starts_with_space extra = false ->
  DVParse_loop d (s ++ extra) (strsize s) st cur
  = DVParse_loop d s (strsize s) st cur.
Proof.
  induction s as [| c s IH]; intros extra st cur Hsize Hextra.
  - cbn [app]. change (strsize []) with 0.
    destruct extra as [| e extra]; [reflexivity |].
    cbn [DVParse_loop]. unfold DVParse_continue. cbn [Z.ltb Z.compare andb].
    cbn [starts_with_space] in Hextra. rewrite Hextra.
    destruct (is_PARSE_ERROR st); reflexivity.
  - change ((c :: s) ++ extra) with (c :: (s ++ extra)).
    rewrite strsize_cons in *. pose proof (strsize_nonneg s) as Hs0.
    cbn [DVParse_loop].
    replace (1 + strsize s - 1) with (strsize s) by lia.
    destruct (DVParse_continue c (1 + strsize s) st).
    + destruct (DVParse_switch d st c cur) as [st1 cur1].
      apply IH; [lia | exact Hextra].
    + destruct (is_PARSE_ERROR st); [reflexivity |].
      f_equal. destruct (Ascii.eqb c " "); [| reflexivity].
      cbv zeta. unfold size_sub.
      replace (1 + strsize s - 1) with (strsize s) by lia.
      rewrite to_size_t_small by lia.
      destruct (strsize s <? 1); [reflexivity |].
      apply IH; [lia | exact Hextra].
Qed.

Lemma DVParse_ignores_rest (d : ARMDebugger)
    (s extra : cstring) :
  strsize s < SIZE_MODULUS -> starts_with_space extra = false ->
  _DVParse d (s ++ extra) (strsize s) = _DVParse d s (strsize s).
Proof.
  intros Hsize Hextra. unfold _DVParse.
  destruct (strsize s <? 1); [reflexivity |].
  apply loop_ignores_rest; assumption.
Qed.

(** X4: the result of [_DVParse] on the first [length] characters of a
    string does not depend on what follows them, provided the character
    that follows is not a space; in particular the newline that ends an
    input line is not parsed. *)
Theorem parser_ignores_text_after_length (d : ARMDebugger)
    (s extra : cstring) :
  strsize s < SIZE_MODULUS -> starts_with_space extra = false ->
  _DVParse d (s ++ extra) (strsize s) = _DVParse d s (strsize s).
Proof. exact (DVParse_ignores_rest d s extra). Qed.

Lemma parser_ignores_text_after_length_witness :
  _DVParse sample_debugger (cstr "5 r3" ++ LF :: cstr "12") 4
  = _DVParse sample_debugger (cstr "5 r3") 4.
Proof.
  apply (parser_ignores_text_after_length sample_debugger (cstr "5 r3")
           (LF :: cstr "12")); reflexivity.
Defined.

(** X5: when the character at position [length] is a space that follows a
    well-formed token ending there, the recursive call receives
    [length - 1] computed from 0 in [size_t], the largest value of the
    type: the parser goes on past the length it was given and parses what
    follows the space up to the terminator. *)
Theorem parser_length_wraps_on_space_at_length (d : ARMDebugger)
    (t more : cstring) (v : Z) :
  token_chars t = true -> t <> [] -> token_node d t = DV_INT v ->
  _DVParse d (t ++ " "%char :: more) (strsize t)
  = DV_INT v :: _DVParse d more (SIZE_MODULUS - 1).
Proof.
  intros Ht Hne Hn.
  assert (H1 : 1 <= strsize t).
  { destruct t as [| c t]; [congruence |]. rewrite strsize_cons.
    pose proof (strsize_nonneg t). lia. }
  rewrite DVParse_token_node;
    [ | exact Ht | rewrite Z.sub_diag; reflexivity | lia | exact H1 ].
  rewrite Hn, Z.sub_diag. reflexivity.
Qed.

Lemma parser_length_wraps_on_space_at_length_witness :
  _DVParse sample_debugger (cstr "7 8 9") 1 = [DV_INT 7; DV_INT 8; DV_INT 9].
Proof.
  refine (eq_trans
            (parser_length_wraps_on_space_at_length sample_debugger
               (cstr "7") (cstr "8 9") 7 eq_refl _ eq_refl)
            eq_refl).
  discriminate.
Defined.

(** X6: an empty token, which a space at the start of the argument string
    or two spaces in a row produce, is accepted as the Integer token 0. *)
Theorem empty_token_is_integer_zero (d : ARMDebugger) (rest : cstring)
    (len : Z) :
  1 <= len ->
  _DVParse d (" "%char :: rest) len
  = DV_INT 0 :: _DVParse d rest (size_sub len 1).
Proof.
  intros H1.
  pose proof (DVParse_token_node d [] (" "%char :: rest) len eq_refl eq_refl)
    as H.
  change (strsize []) with 0 in H. rewrite Z.sub_0_r in H.
  apply H; lia.
Qed.

Lemma empty_token_is_integer_zero_witness :
  _DVParse sample_debugger (cstr " 5") 2 = [DV_INT 0; DV_INT 5].
Proof.
  refine (eq_trans
            (empty_token_is_integer_zero sample_debugger (cstr "5") 2 _)
            eq_refl).
  discriminate.
Defined.

(** * Further properties of the dispatcher *)

Lemma strncasecmp_fold a : forall n b b',
  map tolower (firstn n b) = map tolower (firstn n b') ->
  strncasecmp a b n = strncasecmp a b' n.
Proof.
  revert a. intros a n. revert a.
  induction n as [| n IH]; intros a b b' H; cbn [strncasecmp].
  - reflexivity.
  - destruct b as [| x b], b' as [| x' b']; cbn [firstn map] in H;
      try discriminate H.
    + cbn [char_at0 tl]. destruct (tolower (char_at0 a) =? tolower NUL);
        [| reflexivity].
      destruct (Ascii.eqb (char_at0 a) NUL); [reflexivity |].
      apply IH. reflexivity.
    + injection H as Hx Hrest. cbn [char_at0 tl]. rewrite Hx.
      destruct (tolower (char_at0 a) =? tolower x'); [| reflexivity].
      destruct (Ascii.eqb (char_at0 a) NUL); [reflexivity |].
      apply IH. exact Hrest.
Qed.

Lemma find_command_fold (table : list (string * DebuggerCommand)) line line'
    n :
  map tolower (firstn (Z.to_nat n) line)
  = map tolower (firstn (Z.to_nat n) line') ->
  find_command table line n = find_command table line' n.
Proof.
  intros H. induction table as [| [name command] table IH];
    cbn [find_command]; [reflexivity |].
  rewrite IH, (strncasecmp_fold (cstr name) _ line line' H). reflexivity.
Qed.

Lemma table_names_find_themselves ARMRun :
  Forall (fun '(name, cmd) =>
            find_command (_debuggerCommands ARMRun) (cstr name)
              (strsize (cstr name)) = Some cmd)
         (_debuggerCommands ARMRun).
Proof.
  unfold _debuggerCommands.
  repeat (apply Forall_cons; [reflexivity |]). apply Forall_nil.
Qed.

Lemma find_command_any_case (ARMRun : ARMCore -> ARMCore)
    (name : string) (cmd : DebuggerCommand) (line : cstring) :
  In (name, cmd) (_debuggerCommands ARMRun) ->
  same_up_to_case (firstn (List.length (cstr name)) line) (cstr name) ->
  find_command (_debuggerCommands ARMRun) line (strsize (cstr name))
  = Some cmd.
Proof.
  intros Hin Hcase.
  rewrite (find_command_fold _ line (cstr name)).
  - pose proof (table_names_find_themselves ARMRun) as H.
    rewrite Forall_forall in H. apply (H (name, cmd) Hin).
  - unfold strsize. rewrite Nat2Z.id, firstn_all. exact Hcase.
Qed.

(** X7: every name of the command table, typed in any mix of upper and
    lower case at the start of a line, is found by the lookup with the
    length of the name and gives the handler of its own entry: no entry is
    hidden by an earlier one, and what follows the name on the line plays
    no part. *)
Theorem command_names_are_found_in_any_case (ARMRun : ARMCore -> ARMCore)
    (name : string) (cmd : DebuggerCommand) (line : cstring) :
  In (name, cmd) (_debuggerCommands ARMRun) ->
  same_up_to_case (firstn (List.length (cstr name)) line) (cstr name) ->
  find_command (_debuggerCommands ARMRun) line (strsize (cstr name))
  = Some cmd.
Proof. exact (find_command_any_case ARMRun name cmd line). Qed.

Lemma command_names_are_found_in_any_case_witness :
  find_command (_debuggerCommands sample_ARMRun) (cstr "PrInT/x 5")
    (strsize (cstr "print/x"))
  = Some _printHex.
Proof.
  apply (command_names_are_found_in_any_case sample_ARMRun "print/x"
           _printHex (cstr "PrInT/x 5")).
  - cbn. tauto.
  - reflexivity.
Defined.

(** X8: when [_parse] returns 0 it has changed nothing: the debugger is
    the one it was given and the output is one diagnostic, "Parse error"
    or "Command not found". *)
Theorem failed_line_leaves_debugger_unchanged (ARMRun : ARMCore -> ARMCore)
    (d : ARMDebugger) (line : cstring) (count : Z) :
  fst (fst (_parse ARMRun d line count)) = 0 ->
  snd (fst (_parse ARMRun d line count)) = d /\
  (snd (_parse ARMRun d line count) = parse_error_notice \/
   snd (_parse ARMRun d line count) = not_found_notice).
Proof.
  rewrite parse_unfold.
  destruct (dv_head_is_error (arguments_of d line count)).
  - intros _. split; [reflexivity | left; reflexivity].
  - pose proof (dispatch_result ARMRun d line (command_length line count)
                  (arguments_of d line count)) as H.
    destruct (find_command (_debuggerCommands ARMRun) line
                (command_length line count)) as [cmd |]; rewrite H;
      cbn [fst snd].
    + discriminate.
    + intros _. split; [reflexivity | right; reflexivity].
Qed.

Lemma failed_line_leaves_debugger_unchanged_witness :
  _parse sample_ARMRun sample_debugger (input_line "brea 16") 7
  = (0, sample_debugger, not_found_notice).
Proof.
  destruct (failed_line_leaves_debugger_unchanged sample_ARMRun
              sample_debugger (input_line "brea 16") 7 eq_refl)
    as [Hd Ht].
  destruct (_parse sample_ARMRun sample_debugger (input_line "brea 16") 7)
    as [[r d'] t] eqn:E.
  cbn [fst snd] in *. subst d'.
  destruct Ht as [-> | ->].
  - discriminate E.
  - injection E as <-. reflexivity.
Defined.

Lemma set_memory_installed d :
  memory (cpu d) = MEMORY_SHIM -> set_memory d MEMORY_SHIM = d.
Proof.
  destruct d as [st [g p m] b w h]. cbn. intros ->. reflexivity.
Qed.

Lemma commands_effect ARMRun cmd :
  In cmd (map snd (_debuggerCommands ARMRun)) ->
  forall d dv, one_command_effect ARMRun d (fst (cmd d dv)).
Proof.
  cbn [_debuggerCommands map snd]. intros H d dv. unfold one_command_effect.
  repeat (destruct H as [<- | H]); try contradiction.
  all: try (left; reflexivity).
  all: try (destruct dv as [| [| v | s] rest]; left; reflexivity).
  all: try (right; left; reflexivity).
  all: try (right; right; left; reflexivity).
  all: try (right; right; right; left; reflexivity).
  all: destruct dv as [| [| v | s] rest]; try (left; reflexivity).
  all: try (right; right; right; right; left; exists (to_uint32 v);
            split; [apply to_uint32_range | reflexivity]).
  all: right; right; right; right; right; exists (to_uint32 v);
    split; [apply to_uint32_range |];
    destruct (ARMMemoryPtr_eqb (memory (cpu d)) MEMORY_SHIM) eqn:E;
    [ apply ARMMemoryPtr_eqb_shim in E;
      rewrite (setWatchpoint_installed d v rest E);
      rewrite (set_memory_installed d E); reflexivity
    | rewrite setWatchpoint_first; [reflexivity |];
      intros Hm; apply ARMMemoryPtr_eqb_shim in Hm; congruence ].
Qed.

Lemma parse_effect (ARMRun : ARMCore -> ARMCore)
    (d : ARMDebugger) (line : cstring) (count : Z) :
  one_command_effect ARMRun d (snd (fst (_parse ARMRun d line count))).
Proof.
  rewrite parse_unfold.
  destruct (dv_head_is_error (arguments_of d line count)).
  - left. reflexivity.
  - pose proof (dispatch_result ARMRun d line (command_length line count)
                  (arguments_of d line count)) as H.
    destruct (find_command (_debuggerCommands ARMRun) line
                (command_length line count)) as [cmd |] eqn:E; rewrite H;
      cbn [fst snd].
    + apply (commands_effect ARMRun). apply (find_command_In _ _ _ _ E).
    + left. reflexivity.
Qed.

(** X9: whatever the line, [_parse] changes the debugger in at most one
    of these ways: the state becomes Running or Shutdown, the core makes
    one step, one address below 2^32 is put at the head of the breakpoint
    list, or one is put at the head of the watchpoint list with the shim
    made the memory interface; everything else is as before. *)
Theorem one_line_has_one_effect (ARMRun : ARMCore -> ARMCore)
    (d : ARMDebugger) (line : cstring) (count : Z) :
  one_command_effect ARMRun d (snd (fst (_parse ARMRun d line count))).
Proof. exact (parse_effect ARMRun d line count). Qed.

Lemma no_command_of_length_zero ARMRun line :
  find_command (_debuggerCommands ARMRun) line 0 = None.
Proof. reflexivity. Qed.

(** X10: a line that begins with a space has an empty command name, which
    no entry of the table matches: [_parse] returns 0 and leaves the
    debugger unchanged, whatever follows the space. *)
Theorem line_starting_with_space_is_not_dispatched
    (ARMRun : ARMCore -> ARMCore) (d : ARMDebugger) (rest : cstring)
    (count : Z) :
  _parse ARMRun d (" "%char :: rest) count = (0, d, parse_error_notice) \/
  _parse ARMRun d (" "%char :: rest) count = (0, d, not_found_notice).
Proof.
  rewrite parse_unfold.
  destruct (dv_head_is_error _); [left; reflexivity | right].
  unfold dispatch, command_length. cbn [strchr].
  destruct (Ascii.eqb " " NUL) eqn:E1; [discriminate E1 |].
  destruct (Ascii.eqb " " " ") eqn:E2; [| discriminate E2].
  cbn [Z.of_nat]. rewrite no_command_of_length_zero. reflexivity.
Qed.

(** * Command lines from end to end *)

Lemma strchr_after_word w rest :
  token_chars w = true ->
  strchr (w ++ " "%char :: rest) " "%char = Some (List.length w).
Proof.
  unfold token_chars. induction w as [| c w IH]; cbn [forallb app strchr].
  - intros _. reflexivity.
  - intros H. apply andb_prop in H. destruct H as [Hc Hw].
    apply negb_true_iff in Hc. unfold is_terminator in Hc.
    apply orb_false_elim in Hc. destruct Hc as [H0 H1].
    rewrite H0, H1, (IH Hw). reflexivity.
Qed.

Lemma skipn_after_word (w : cstring) c rest :
  skipn (S (List.length w)) (w ++ c :: rest) = rest.
Proof. induction w as [| x w IH]; [reflexivity | exact IH]. Qed.

(** [_parse] on a line made of a word, a space, an argument string and
    the newline, called as [_commandLine] calls it. *)
Lemma parse_command_line ARMRun d word args :
  is_word word = true -> strsize (command_line word args) < SIZE_MODULUS ->
  _parse ARMRun d (command_line word args)
    (to_size_t (strsize (command_line word args) - 1))
  = if dv_head_is_error (_DVParse d args (strsize args))
    then (0, d, parse_error_notice)
    else dispatch ARMRun d (command_line word args) (strsize word)
           (_DVParse d args (strsize args)).
Proof.
  intros Hw Hsize. unfold command_line in *.
  rewrite strsize_app, strsize_cons, strsize_app in *.
  change (strsize [LF]) with 1 in *.
  pose proof (strsize_nonneg word) as Hw0.
  pose proof (strsize_nonneg args) as Ha0.
  rewrite to_size_t_small by lia.
  unfold _parse. rewrite (strchr_after_word word (args ++ [LF]) Hw).
  cbv zeta. rewrite skipn_after_word. fold (strsize word).
  unfold size_sub.
  replace (strsize word + (1 + (strsize args + 1)) - 1 - strsize word)
    with (1 + strsize args) by lia.
  rewrite (to_size_t_small (1 + strsize args)) by lia.
  replace (1 + strsize args - 1) with (strsize args) by lia.
  rewrite (to_size_t_small (strsize args)) by lia.
  rewrite DVParse_ignores_rest; [reflexivity | lia | reflexivity].
Qed.

Lemma firstn_word (w : cstring) rest :
  firstn (List.length w) (w ++ rest) = w.
Proof.
  rewrite firstn_app, Nat.sub_diag, firstn_all. cbn [firstn].
  apply app_nil_r.
Qed.

Lemma same_case_length (a b : cstring) :
  same_up_to_case a b -> List.length a = List.length b.
Proof.
  unfold same_up_to_case. intros H.
  rewrite <- (length_map tolower a), H. apply length_map.
Qed.

Lemma parse_literal_command_line (ARMRun : ARMCore -> ARMCore)
    (d : ARMDebugger) (name : string) (cmd : DebuggerCommand)
    (word : cstring) (ts : list cstring) (vs : list Z) :
  In (name, cmd) (_debuggerCommands ARMRun) ->
  is_word word = true -> same_up_to_case word (cstr name) ->
  ts <> [] -> Forall2 (fun t v => literal_value t = Some v) ts vs ->
  strsize (command_line word (join_tokens ts)) < SIZE_MODULUS ->
  let dv := map (fun v => DV_INT (to_int32 v)) vs in
  _parse ARMRun d (command_line word (join_tokens ts))
    (to_size_t (strsize (command_line word (join_tokens ts)) - 1))
  = (1, fst (cmd d dv), snd (cmd d dv)).
Proof.
  intros Hin Hw Hcase Hne Hlit Hsize dv.
  rewrite parse_command_line by assumption.
  assert (Hargs : strsize (join_tokens ts) < SIZE_MODULUS).
  { unfold command_line in Hsize.
    rewrite strsize_app, strsize_cons, strsize_app in Hsize.
    pose proof (strsize_nonneg word). pose proof (strsize_nonneg [LF]). lia. }
  destruct (literal_sequence_values d ts vs Hne Hlit Hargs)
    as [Hdv _].
  rewrite Hdv. fold dv.
  assert (Hhead : dv_head_is_error dv = false).
  { unfold dv. destruct vs; reflexivity. }
  rewrite Hhead.
  pose proof (dispatch_result ARMRun d (command_line word (join_tokens ts))
                (strsize word) dv) as H.
  assert (Hfind : find_command (_debuggerCommands ARMRun)
                    (command_line word (join_tokens ts)) (strsize word)
                  = Some cmd).
  { unfold strsize at 1. rewrite (same_case_length _ _ Hcase).
    apply find_command_any_case; [exact Hin |].
    rewrite <- (same_case_length _ _ Hcase).
    unfold command_line. rewrite firstn_word. exact Hcase. }
  rewrite Hfind in H. exact H.
Qed.

(** X11: a line made of a command name of the table in any letter case, a
    space, literals of the grammar separated by single spaces and the
    newline is dispatched to the handler of that name with the values of
    the literals, as 32-bit words in the order typed, and [_parse]
    returns 1. *)
Theorem literal_command_line_runs_its_handler (ARMRun : ARMCore -> ARMCore)
    (d : ARMDebugger) (name : string) (cmd : DebuggerCommand)
    (word : cstring) (ts : list cstring) (vs : list Z) :
  In (name, cmd) (_debuggerCommands ARMRun) ->
  is_word word = true -> same_up_to_case word (cstr name) ->
  ts <> [] -> Forall2 (fun t v => literal_value t = Some v) ts vs ->
  strsize (command_line word (join_tokens ts)) < SIZE_MODULUS ->
  let dv := map (fun v => DV_INT (to_int32 v)) vs in
  _parse ARMRun d (command_line word (join_tokens ts))
    (to_size_t (strsize (command_line word (join_tokens ts)) - 1))
  = (1, fst (cmd d dv), snd (cmd d dv)).
Proof. exact (parse_literal_command_line ARMRun d name cmd word ts vs). Qed.

Lemma literal_command_line_runs_its_handler_witness :
  _parse sample_ARMRun sample_debugger (input_line "BREAK 0x8000004") 15
  = (1, set_breakpoints sample_debugger [134217732], []).
Proof.
  refine (eq_trans
            (literal_command_line_runs_its_handler sample_ARMRun
               sample_debugger "break" _setBreakpoint (cstr "BREAK")
               [cstr "0x8000004"] [134217732] _ eq_refl eq_refl _ _ eq_refl)
            eq_refl).
  - cbn. tauto.
  - discriminate.
  - repeat constructor.
Defined.

(** * Further properties of breakpoints and of the run loop *)

Lemma checkBreakpoints_for_hits l len d :
  checkBreakpoints_for l len d =
  if existsb (fun address =>
                uint32_add address len =? to_uint32 (gpr (cpu d) ARM_PC)) l
  then (set_state d DEBUGGER_PAUSED, [hit_notice])
  else (d, []).
Proof.
  induction l as [| a l IH]; cbn [checkBreakpoints_for existsb].
  - reflexivity.
  - destruct (uint32_add a len =? to_uint32 (gpr (cpu d) ARM_PC)).
    + reflexivity.
    + exact IH.
Qed.

Lemma checkBreakpoints_hits d :
  _checkBreakpoints d =
  if some_breakpoint_hits (breakpoints d) (cpu d)
  then (set_state d DEBUGGER_PAUSED, [hit_notice])
  else (d, []).
Proof. unfold _checkBreakpoints. apply checkBreakpoints_for_hits. Qed.

(** X12: a breakpoint registered with [_setBreakpoint] is found by the
    check: once the Integer argument [i] has been registered, the check
    pauses the debugger with the notice in every state of the core whose
    program counter is [i] plus the instruction length of its mode as
    32-bit words, whatever other breakpoints exist. *)
Theorem registered_breakpoint_is_hit (d : ARMDebugger) (i : Z)
    (rest : DebugVector) (c : ARMCore) :
  to_uint32 (gpr c ARM_PC)
  = to_uint32 (i + instruction_length (execution_mode c)) ->
  let d1 := set_cpu (fst (_setBreakpoint d (DV_INT i :: rest))) c in
  breakpoints d1 = to_uint32 i :: breakpoints d /\
  _checkBreakpoints d1 = (set_state d1 DEBUGGER_PAUSED, [hit_notice]).
Proof.
  intros Hpc d1. split; [reflexivity |].
  unfold _checkBreakpoints.
  change (breakpoints d1) with ([] ++ to_uint32 i :: breakpoints d).
  apply scan_first_hit.
  - intros B [].
  - change (cpu d1) with c. rewrite Hpc. unfold to_uint32.
    rewrite Z.add_mod_idemp_l by lia. reflexivity.
Qed.

Lemma registered_breakpoint_is_hit_witness :
  _checkBreakpoints
    (set_cpu (fst (_setBreakpoint sample_debugger [DV_INT 111])) sample_cpu)
  = (set_state
       (set_cpu (fst (_setBreakpoint sample_debugger [DV_INT 111]))
          sample_cpu)
       DEBUGGER_PAUSED,
     [hit_notice]).
Proof.
  apply (registered_breakpoint_is_hit sample_debugger 111 [] sample_cpu).
  reflexivity.
Defined.

(** X13: a free run with breakpoints stops at the first step after which
    some breakpoint matches.  If no breakpoint matches after each of the
    first [k] steps and one matches after step [k + 1], then with fuel for
    [k + 1] steps the checking loop returns the debugger Paused on the
    core of step [k + 1], the breakpoint list as it was, having stepped
    [k + 1] times and printed the notice once. *)
Theorem free_run_stops_at_first_match (ARMRun : ARMCore -> ARMCore)
    (k : nat) : forall (d : ARMDebugger) (fuel : nat),
  state d = DEBUGGER_RUNNING -> (S k <= fuel)%nat ->
  (forall j, (1 <= j <= k)%nat ->
     some_breakpoint_hits (breakpoints d) (steps ARMRun j (cpu d)) = false) ->
  some_breakpoint_hits (breakpoints d) (steps ARMRun (S k) (cpu d)) = true ->
  run_checked ARMRun fuel d
  = Some (set_state (set_cpu d (steps ARMRun (S k) (cpu d))) DEBUGGER_PAUSED,
          repeat Call_ARMRun k ++ [Call_ARMRun; hit_notice]).
Proof.
  induction k as [| k IH]; intros d fuel Hst Hfuel Hmiss Hhit;
    (destruct fuel as [| fuel]; [lia |]);
    cbn [run_checked]; rewrite Hst; unfold run_checked_body;
    rewrite checkBreakpoints_hits;
    change (breakpoints (set_cpu d (ARMRun (cpu d)))) with (breakpoints d);
    change (cpu (set_cpu d (ARMRun (cpu d)))) with (steps ARMRun 1 (cpu d)).
  - rewrite Hhit. destruct fuel; reflexivity.
  - rewrite (Hmiss 1%nat) by lia.
    rewrite (IH (set_cpu d (ARMRun (cpu d))) fuel).
    + reflexivity.
    + exact Hst.
    + lia.
    + intros j Hj. apply (Hmiss (S j)). lia.
    + exact Hhit.
Qed.

Lemma free_run_stops_at_first_match_witness :
  run_checked sample_ARMRun 5
    (set_breakpoints (set_state sample_debugger DEBUGGER_RUNNING) [123])
  = Some
      (set_state
         (set_cpu
            (set_breakpoints (set_state sample_debugger DEBUGGER_RUNNING)
               [123])
            (steps sample_ARMRun 3 sample_cpu))
         DEBUGGER_PAUSED,
       [Call_ARMRun; Call_ARMRun; Call_ARMRun; hit_notice]).
Proof.
  apply (free_run_stops_at_first_match sample_ARMRun 2
           (set_breakpoints (set_state sample_debugger DEBUGGER_RUNNING)
              [123]) 5).
  - reflexivity.
  - lia.
  - intros j Hj.
    assert (Hc : j = 1%nat \/ j = 2%nat) by lia.
    destruct Hc as [-> | ->]; reflexivity.
  - reflexivity.
Defined.

Lemma is_suffix_refl {A : Type} (l : list A) : is_suffix l l.
Proof. exists []. reflexivity. Qed.

Lemma is_suffix_trans {A : Type} (l1 l2 l3 : list A) :
  is_suffix l1 l2 -> is_suffix l2 l3 -> is_suffix l1 l3.
Proof.
  intros [f1 ->] [f2 ->]. exists (f2 ++ f1). apply app_assoc.
Qed.

Lemma is_suffix_cons {A : Type} (a : A) (l : list A) : is_suffix l (a :: l).
Proof. exists [a]. reflexivity. Qed.

Lemma keeps_points_refl d : keeps_points d d.
Proof. split; apply is_suffix_refl. Qed.

Lemma keeps_points_trans d1 d2 d3 :
  keeps_points d1 d2 -> keeps_points d2 d3 -> keeps_points d1 d3.
Proof.
  intros [Hb1 Hw1] [Hb2 Hw2].
  split; eapply is_suffix_trans; eassumption.
Qed.

Lemma effect_keeps_points ARMRun d d' :
  one_command_effect ARMRun d d' -> keeps_points d d'.
Proof.
  intros [-> | [-> | [-> | [-> | [(a & _ & ->) | (a & _ & ->)]]]]];
    split; cbn; try apply is_suffix_refl; apply is_suffix_cons.
Qed.

Lemma body_keeps_points ARMRun d line count :
  keeps_points d (fst (commandLine_body ARMRun d line count)).
Proof.
  unfold commandLine_body.
  destruct (Ascii.eqb (char_at0 line) LF).
  - destruct (history_first (histate d)) as [str |];
      [| apply keeps_points_refl].
    pose proof (parse_effect ARMRun d str
                  (size_sub (strlen str) 1)) as H.
    destruct (_parse ARMRun d str (size_sub (strlen str) 1)) as [[r d'] t].
    apply (effect_keeps_points ARMRun). exact H.
  - pose proof (parse_effect ARMRun d line
                  (to_size_t (count - 1))) as H.
    destruct (_parse ARMRun d line (to_size_t (count - 1))) as [[r d'] t].
    apply (effect_keeps_points ARMRun) in H. cbn [fst snd] in H.
    destruct (negb (r =? 0)); exact H.
Qed.

Lemma commandLine_while_keeps_points ARMRun input : forall d,
  keeps_points d (snd (fst (commandLine_while ARMRun input d))).
Proof.
  induction input as [| line input IH]; intros d;
    cbn [commandLine_while]; destruct (state d) eqn:Hst;
    try apply keeps_points_refl.
  - split; cbn; apply is_suffix_refl.
  - pose proof (body_keeps_points ARMRun d line
                  (Z.of_nat (List.length line))) as Hb.
    destruct (commandLine_body ARMRun d line (Z.of_nat (List.length line)))
      as [d1 t1].
    specialize (IH d1).
    destruct (commandLine_while ARMRun input d1) as [[input2 d2] t2].
    cbn [fst snd] in *. eapply keeps_points_trans; eassumption.
Qed.

Lemma run_free_keeps_points ARMRun fuel : forall d d' t,
  run_free ARMRun fuel d = Some (d', t) -> keeps_points d d'.
Proof.
  induction fuel as [| fuel IH]; intros d d' t; cbn [run_free];
    destruct (state d); try discriminate;
    try (intros [= <- <-]; apply keeps_points_refl).
  destruct (run_free ARMRun fuel (set_cpu d (ARMRun (cpu d))))
    as [[d2 t2] |] eqn:E; [| discriminate].
  intros [= <- <-]. apply (IH _ _ _ E).
Qed.

Lemma run_checked_keeps_points ARMRun fuel : forall d d' t,
  run_checked ARMRun fuel d = Some (d', t) -> keeps_points d d'.
Proof.
  induction fuel as [| fuel IH]; intros d d' t; cbn [run_checked];
    destruct (state d); try discriminate;
    try (intros [= <- <-]; apply keeps_points_refl).
  unfold run_checked_body. rewrite checkBreakpoints_hits.
  destruct (some_breakpoint_hits _ _).
  - destruct (run_checked ARMRun fuel _) as [[d2 t2] |] eqn:E;
      [| discriminate].
    intros [= <- <-]. apply (IH _ _ _ E).
  - destruct (run_checked ARMRun fuel _) as [[d2 t2] |] eqn:E;
      [| discriminate].
    intros [= <- <-]. apply (IH _ _ _ E).
Qed.

Lemma run_while_keeps_points ARMRun fuel : forall input d input' d' t,
  ARMDebuggerRun_while ARMRun fuel input d = Some (input', d', t) ->
  keeps_points d d'.
Proof.
  induction fuel as [| fuel IH]; intros input d input' d' t;
    cbn [ARMDebuggerRun_while]; destruct (run_guard d);
    try discriminate;
    try (intros [= <- <- <-]; apply keeps_points_refl).
  destruct (run_inner ARMRun fuel d) as [[d1 t1] |] eqn:Ei; [| discriminate].
  assert (H1 : keeps_points d d1).
  { unfold run_inner in Ei. destruct (breakpoints d).
    - apply (run_free_keeps_points _ _ _ _ _ Ei).
    - apply (run_checked_keeps_points _ _ _ _ _ Ei). }
  destruct (state d1).
  - unfold _commandLine.
    destruct (_printStatus d1 []) as [d0 t0].
    pose proof (commandLine_while_keeps_points ARMRun input d1) as H2.
    destruct (commandLine_while ARMRun input d1) as [[input2 d2] t2].
    cbn [fst snd] in H2.
    destruct (ARMDebuggerRun_while ARMRun fuel input2 d2)
      as [[[input3 d3] t3] |] eqn:E; [| discriminate].
    intros [= <- <- <-].
    eapply keeps_points_trans; [exact H1 |].
    eapply keeps_points_trans; [exact H2 | apply (IH _ _ _ _ _ E)].
  - destruct (ARMDebuggerRun_while ARMRun fuel input d1)
      as [[[input3 d3] t3] |] eqn:E; [| discriminate].
    intros [= <- <- <-].
    eapply keeps_points_trans; [exact H1 | apply (IH _ _ _ _ _ E)].
  - intros [= <- <- <-]. exact H1.
  - intros [= <- <- <-]. exact H1.
Qed.

(** X14: the debugger never removes a breakpoint or a watchpoint: after
    any call of [ARMDebuggerRun] that returns, whatever the input lines and
    the steps of the core, the breakpoint list and the watchpoint list of
    the start are still there, in the same order, behind the records that
    were added. *)
Theorem run_never_removes_points (ARMRun : ARMCore -> ARMCore) (fuel : nat)
    (input input' : list cstring) (d d' : ARMDebugger) (t : trace) :
  ARMDebuggerRun ARMRun fuel input d = Some (input', d', t) ->
  (exists added, breakpoints d' = added ++ breakpoints d) /\
  (exists added,
     watchpoints (memoryShim d') = added ++ watchpoints (memoryShim d)).
Proof.
  unfold ARMDebuggerRun. intros H.
  apply run_while_keeps_points in H.
  destruct (state d); exact H.
Qed.

Lemma run_never_removes_points_witness :
  exists added,
    breakpoints
      (set_state
         (set_histate (set_breakpoints sample_debugger [32; 16])
            [input_line "q"; input_line "b 32"])
         DEBUGGER_SHUTDOWN)
    = added ++ breakpoints (set_breakpoints sample_debugger [16]).
Proof.
  apply (run_never_removes_points sample_ARMRun 3
           [input_line "b 32"; input_line "q"] []
           (set_breakpoints sample_debugger [16]) _
           (snd (_printStatus sample_debugger []))).
  reflexivity.
Defined.

(** * Further properties of the read-eval-print loop *)

Lemma effect_state ARMRun d d' :
  one_command_effect ARMRun d d' ->
  state d' = state d \/ state d' = DEBUGGER_RUNNING \/
  state d' = DEBUGGER_SHUTDOWN.
Proof.
  intros [-> | [-> | [-> | [-> | [(a & _ & ->) | (a & _ & ->)]]]]];
    cbn; auto.
Qed.

Lemma body_state ARMRun d line count :
  let d' := fst (commandLine_body ARMRun d line count) in
  state d' = state d \/ state d' = DEBUGGER_RUNNING \/
  state d' = DEBUGGER_SHUTDOWN.
Proof.
  cbv zeta. unfold commandLine_body.
  destruct (Ascii.eqb (char_at0 line) LF).
  - destruct (history_first (histate d)) as [str |]; [| left; reflexivity].
    pose proof (parse_effect ARMRun d str
                  (size_sub (strlen str) 1)) as H.
    destruct (_parse ARMRun d str (size_sub (strlen str) 1)) as [[r d'] t].
    apply (effect_state ARMRun). exact H.
  - pose proof (parse_effect ARMRun d line
                  (to_size_t (count - 1))) as H.
    destruct (_parse ARMRun d line (to_size_t (count - 1))) as [[r d'] t].
    apply (effect_state ARMRun) in H. cbn [fst snd] in H.
    destruct (negb (r =? 0)); exact H.
Qed.

Lemma commandLine_while_idle ARMRun input d :
  state d <> DEBUGGER_PAUSED ->
  commandLine_while ARMRun input d = (input, d, []).
Proof.
  intros H. destruct input; cbn [commandLine_while];
    destruct (state d); congruence.
Qed.

(** X15: the loop of [_commandLine] reads lines only while the state is
    Paused: it returns in a state other than Paused, the input it leaves
    is what follows the lines it has read, and, entered in the state
    Paused, it returns Exiting only when it met the end of the input, none
    of which is then left. *)
Theorem command_loop_exit (ARMRun : ARMCore -> ARMCore)
    (input : list cstring) : forall (d : ARMDebugger),
  let input' := fst (fst (commandLine_while ARMRun input d)) in
  let d' := snd (fst (commandLine_while ARMRun input d)) in
  state d' <> DEBUGGER_PAUSED /\
  (exists read, input = read ++ input') /\
  (state d = DEBUGGER_PAUSED -> state d' = DEBUGGER_EXITING -> input' = []).
Proof.
  cbv zeta. induction input as [| line input IH]; intros d.
  - cbn [commandLine_while]. destruct (state d) eqn:Hst; cbn [fst snd].
    + repeat split; [discriminate | exists []; reflexivity].
    + rewrite Hst. repeat split; try discriminate. exists []. reflexivity.
    + rewrite Hst. repeat split; try discriminate. exists []. reflexivity.
    + rewrite Hst. repeat split; try discriminate. exists []. reflexivity.
  - destruct (state d) eqn:Hst.
    2-4: rewrite commandLine_while_idle by congruence; cbn [fst snd];
      rewrite Hst; repeat split; try discriminate; exists []; reflexivity.
    cbn [commandLine_while]. rewrite Hst.
    pose proof (body_state ARMRun d line (Z.of_nat (List.length line)))
      as Hb. cbv zeta in Hb.
    destruct (commandLine_body ARMRun d line (Z.of_nat (List.length line)))
      as [d1 t1]. cbn [fst] in Hb.
    destruct (IH d1) as (Hne & [read Hread] & Hexit).
    destruct (state d1) eqn:Hst1.
    + destruct (commandLine_while ARMRun input d1) as [[input2 d2] t2].
      cbn [fst snd] in *. split; [exact Hne |]. split.
      * exists (line :: read). rewrite Hread at 1. reflexivity.
      * intros _ He. apply Hexit; [reflexivity | exact He].
    + rewrite commandLine_while_idle in * by congruence.
      cbn [fst snd] in *. split; [congruence |]. split.
      * exists [line]. reflexivity.
      * intros _ He. congruence.
    + exfalso. rewrite Hst in Hb.
      destruct Hb as [Hb | [Hb | Hb]]; discriminate Hb.
    + rewrite commandLine_while_idle in * by congruence.
      cbn [fst snd] in *. split; [congruence |]. split.
      * exists [line]. reflexivity.
      * intros _ He. congruence.
Qed.

Lemma command_loop_exit_witness :
  fst (fst (commandLine_while sample_ARMRun
              [input_line "p 1"; input_line "zzz"] sample_debugger))
  = [].
Proof.
  apply (command_loop_exit sample_ARMRun
           [input_line "p 1"; input_line "zzz"] sample_debugger);
    reflexivity.
Defined.

(** X16: when the input is at its end while the debugger is Paused, a call
    of [ARMDebuggerRun] prints the status once, makes no step of the core
    and returns with the state Exiting, everything else unchanged. *)
Theorem end_of_input_while_paused_detaches (ARMRun : ARMCore -> ARMCore)
    (fuel : nat) (d : ARMDebugger) :
  state d = DEBUGGER_PAUSED ->
  ARMDebuggerRun ARMRun (S fuel) [] d
  = Some ([], set_state d DEBUGGER_EXITING, snd (_printStatus d [])).
Proof.
  intros Hst. unfold ARMDebuggerRun. rewrite Hst.
  cbn [ARMDebuggerRun_while]. unfold run_guard. rewrite Hst.
  cbn [state_value Z.ltb Z.compare].
  assert (Hin : run_inner ARMRun fuel d = Some (d, [])).
  { unfold run_inner. destruct (breakpoints d); destruct fuel;
      cbn [run_free run_checked]; rewrite Hst; reflexivity. }
  rewrite Hin, Hst. unfold _commandLine.
  destruct (_printStatus d []) as [d0 t0] eqn:Ep.
  cbn [commandLine_while]. rewrite Hst.
  rewrite run_while_stopped by reflexivity.
  cbn [snd app]. rewrite !app_nil_r. reflexivity.
Qed.

Lemma end_of_input_while_paused_detaches_witness :
  ARMDebuggerRun sample_ARMRun 1 [] sample_debugger
  = Some ([], set_state sample_debugger DEBUGGER_EXITING,
          snd (_printStatus sample_debugger [])).
Proof.
  apply (end_of_input_while_paused_detaches sample_ARMRun 0 sample_debugger).
  reflexivity.
Defined.

Lemma strchr_bare_word w :
  token_chars w = true -> strchr (bare_line w) " "%char = None.
Proof.
  unfold token_chars, bare_line.
  induction w as [| c w IH]; cbn [forallb app strchr].
  - intros _. reflexivity.
  - intros H. apply andb_prop in H. destruct H as [Hc Hw].
    apply negb_true_iff in Hc. unfold is_terminator in Hc.
    apply orb_false_elim in Hc. destruct Hc as [H0 H1].
    rewrite H0, H1, (IH Hw). reflexivity.
Qed.

(** A line made of a command name of the table in any letter case and the
    newline runs the handler of that name on the null argument vector. *)
Lemma parse_bare_line ARMRun d name cmd word :
  In (name, cmd) (_debuggerCommands ARMRun) ->
  is_word word = true -> same_up_to_case word (cstr name) ->
  strsize (bare_line word) < SIZE_MODULUS ->
  _parse ARMRun d (bare_line word)
    (to_size_t (strsize (bare_line word) - 1))
  = (1, fst (cmd d []), snd (cmd d [])).
Proof.
  intros Hin Hw Hcase Hsize.
  unfold _parse. rewrite (strchr_bare_word word Hw).
  unfold bare_line in *. rewrite strsize_app in *.
  change (strsize [LF]) with 1 in *.
  pose proof (strsize_nonneg word) as Hw0.
  replace (strsize word + 1 - 1) with (strsize word) by lia.
  rewrite to_size_t_small by lia.
  pose proof (dispatch_result ARMRun d (word ++ [LF]) (strsize word) [])
    as H.
  assert (Hfind : find_command (_debuggerCommands ARMRun) (word ++ [LF])
                    (strsize word) = Some cmd).
  { unfold strsize at 1. rewrite (same_case_length _ _ Hcase).
    apply find_command_any_case; [exact Hin |].
    rewrite <- (same_case_length _ _ Hcase), firstn_word. exact Hcase. }
  rewrite Hfind in H. exact H.
Qed.

Lemma short_word_size (word : cstring) (name : string) :
  same_up_to_case word (cstr name) ->
  (List.length (cstr name) <= 8)%nat ->
  strsize (bare_line word) < SIZE_MODULUS.
Proof.
  intros Hcase Hlen. apply same_case_length in Hcase.
  unfold bare_line. rewrite strsize_app. unfold strsize, SIZE_MODULUS.
  rewrite Hcase. cbn [List.length].
  assert (Z.of_nat (List.length (cstr name)) <= 8) by lia.
  assert (2 ^ 4 <= 2 ^ 64) by (apply Z.pow_le_mono_r; lia). lia.
Qed.

Lemma printStatus_has_no_hit d dv :
  fst (_printStatus d dv) = d /\ ~ In hit_notice (snd (_printStatus d dv)).
Proof.
  split; [reflexivity |]. unfold _printStatus, _printPSR, _printLine.
  cbn [snd map app In].
  destruct (execution_mode (cpu d)); cbn [app In];
    intros H; repeat (destruct H as [H | H]; [discriminate H |]); exact H.
Qed.

(** X17: the command [n] or [next], typed in any letter case on a line of
    its own, makes the core take exactly one step and prints the status of
    the new core, without checking the breakpoints: the state of the
    debugger is unchanged and no hit notice is printed even when a
    breakpoint matches the new program counter; the line enters the
    history. *)
Theorem next_steps_once_without_checking (ARMRun : ARMCore -> ARMCore)
    (d : ARMDebugger) (word : cstring) :
  is_word word = true ->
  same_up_to_case word (cstr "n") \/ same_up_to_case word (cstr "next") ->
  let d1 := set_cpu d (ARMRun (cpu d)) in
  commandLine_body ARMRun d (bare_line word) (strsize (bare_line word))
  = (set_histate d1 (history_enter (histate d) (bare_line word)),
     Call_ARMRun :: snd (_printStatus d1 [])) /\
  state d1 = state d /\
  ~ In hit_notice (Call_ARMRun :: snd (_printStatus d1 [])).
Proof.
  intros Hw Hcase d1.
  assert (Hparse :
    _parse ARMRun d (bare_line word)
      (to_size_t (strsize (bare_line word) - 1))
    = (1, d1, Call_ARMRun :: snd (_printStatus d1 []))).
  { destruct Hcase as [Hcase | Hcase].
    - apply (parse_bare_line ARMRun d "n" (_next ARMRun) word);
        [cbn; tauto | exact Hw | exact Hcase |].
      apply (short_word_size word "n" Hcase). cbn. lia.
    - apply (parse_bare_line ARMRun d "next" (_next ARMRun) word);
        [cbn; tauto | exact Hw | exact Hcase |].
      apply (short_word_size word "next" Hcase). cbn. lia. }
  split; [| split; [reflexivity |]].
  - unfold commandLine_body.
    assert (Hfirst : Ascii.eqb (char_at0 (bare_line word)) LF = false).
    { destruct word as [| c word].
      - destruct Hcase as [H | H]; discriminate H.
      - cbn [bare_line app char_at0]. cbn [is_word token_chars forallb] in Hw.
        unfold is_word, token_chars in Hw. cbn [forallb] in Hw.
        apply andb_prop in Hw. destruct Hw as [Hc _].
        destruct (Ascii.eqb c LF) eqn:E; [| reflexivity].
        apply Ascii.eqb_eq in E. subst c.
        destruct Hcase as [H | H]; discriminate H. }
    rewrite Hfirst, Hparse. reflexivity.
  - intros [H | H]; [discriminate H |].
    apply (proj2 (printStatus_has_no_hit d1 [])). exact H.
Qed.

Lemma next_steps_once_without_checking_witness :
  commandLine_body sample_ARMRun (set_breakpoints sample_debugger [115])
    (input_line "NEXT") 5
  = (set_histate
       (set_cpu (set_breakpoints sample_debugger [115])
          (sample_ARMRun sample_cpu))
       [input_line "NEXT"],
     Call_ARMRun
     :: snd (_printStatus
               (set_cpu (set_breakpoints sample_debugger [115])
                  (sample_ARMRun sample_cpu)) [])).
Proof.
  apply (next_steps_once_without_checking sample_ARMRun
           (set_breakpoints sample_debugger [115]) (cstr "NEXT")).
  - reflexivity.
  - right. reflexivity.
Defined.

(** X18: the command [q] or [quit], typed in any letter case on a line of
    its own while the debugger is Paused, ends the call of
    [ARMDebuggerRun]: the state is Shutdown, the lines that follow are
    left unread, the core has made no step and nothing but the status at
    entry has been printed. *)
Theorem quit_ends_the_run (ARMRun : ARMCore -> ARMCore) (fuel : nat)
    (d : ARMDebugger) (word : cstring) (rest : list cstring) :
  state d = DEBUGGER_PAUSED -> is_word word = true ->
  same_up_to_case word (cstr "q") \/ same_up_to_case word (cstr "quit") ->
  ARMDebuggerRun ARMRun (S fuel) (bare_line word :: rest) d
  = Some (rest,
          set_histate (set_state d DEBUGGER_SHUTDOWN)
            (history_enter (histate d) (bare_line word)),
          snd (_printStatus d [])).
Proof.
  intros Hst Hw Hcase.
  assert (Hparse :
    _parse ARMRun d (bare_line word)
      (to_size_t (strsize (bare_line word) - 1))
    = (1, set_state d DEBUGGER_SHUTDOWN, [])).
  { destruct Hcase as [Hcase | Hcase].
    - apply (parse_bare_line ARMRun d "q" _quit word);
        [cbn; tauto | exact Hw | exact Hcase |].
      apply (short_word_size word "q" Hcase). cbn. lia.
    - apply (parse_bare_line ARMRun d "quit" _quit word);
        [cbn; tauto | exact Hw | exact Hcase |].
      apply (short_word_size word "quit" Hcase). cbn. lia. }
  assert (Hfirst : Ascii.eqb (char_at0 (bare_line word)) LF = false).
  { destruct word as [| c word].
    - destruct Hcase as [H | H]; discriminate H.
    - cbn [bare_line app char_at0].
      destruct (Ascii.eqb c LF) eqn:E; [| reflexivity].
      apply Ascii.eqb_eq in E. subst c.
      destruct Hcase as [H | H]; discriminate H. }
  unfold ARMDebuggerRun. rewrite Hst.
  cbn [ARMDebuggerRun_while]. unfold run_guard. rewrite Hst.
  cbn [state_value Z.ltb Z.compare].
  assert (Hin : run_inner ARMRun fuel d = Some (d, [])).
  { unfold run_inner. destruct (breakpoints d); destruct fuel;
      cbn [run_free run_checked]; rewrite Hst; reflexivity. }
  rewrite Hin, Hst. unfold _commandLine.
  destruct (_printStatus d []) as [d0 t0] eqn:Ep.
  cbn [commandLine_while]. rewrite Hst.
  unfold commandLine_body. fold (strsize (bare_line word)).
  rewrite Hfirst, Hparse. cbn [Z.eqb negb].
  rewrite commandLine_while_idle by discriminate.
  rewrite run_while_stopped by reflexivity.
  cbn [snd app histate set_state]. rewrite !app_nil_r. reflexivity.
Qed.

Lemma quit_ends_the_run_witness :
  ARMDebuggerRun sample_ARMRun 1 [input_line "Quit"; input_line "b 16"]
    sample_debugger
  = Some ([input_line "b 16"],
          set_histate (set_state sample_debugger DEBUGGER_SHUTDOWN)
            [input_line "Quit"],
          snd (_printStatus sample_debugger [])).
Proof.
  apply (quit_ends_the_run sample_ARMRun 0 sample_debugger (cstr "Quit")
           [input_line "b 16"]).
  - reflexivity.
  - reflexivity.
  - right. reflexivity.
Defined.

(** * Tab completion *)

Lemma strncasecmp_extends a b k : forall n,
  strncasecmp a b k <> 0 -> (k <= n)%nat ->
  strncasecmp a b n = strncasecmp a b k.
Proof.
  revert a b. induction k as [| k IH]; intros a b n Hne Hle.
  - cbn in Hne. congruence.
  - destruct n as [| n]; [lia |]. cbn [strncasecmp] in *.
    destruct (tolower (char_at0 a) =? tolower (char_at0 b));
      [| reflexivity].
    destruct (Ascii.eqb (char_at0 a) NUL); [congruence |].
    apply IH; [exact Hne | lia].
Qed.

Lemma tolower_zero c : tolower c = 0 -> c = NUL.
Proof. each_char c; intros H; try discriminate H; reflexivity. Qed.

Lemma strncasecmp_zero a : forall n b,
  strncasecmp a b n = 0 -> (n <= List.length b)%nat -> no_NUL b = true ->
  (n <= List.length a)%nat /\
  map tolower (firstn n a) = map tolower (firstn n b).
Proof.
  intros n. revert a. induction n as [| n IH]; intros a b H Hlen Hnul.
  - split; [lia | reflexivity].
  - destruct b as [| x b]; [cbn in Hlen; lia |].
    cbn [strncasecmp char_at0 tl] in H.
    unfold no_NUL in Hnul. cbn [forallb] in Hnul.
    apply andb_prop in Hnul. destruct Hnul as [Hx Hb].
    apply negb_true_iff in Hx.
    destruct (Z.eqb_spec (tolower (char_at0 a)) (tolower x)) as [E | E].
    + destruct (Ascii.eqb (char_at0 a) NUL) eqn:Ea.
      * apply Ascii.eqb_eq in Ea. rewrite Ea in E.
        symmetry in E. apply tolower_zero in E. subst x. discriminate Hx.
      * destruct a as [| y a]; [discriminate Ea |].
        cbn [char_at0 tl] in *.
        destruct (IH a b H) as [Hla Hmap];
          [cbn [List.length] in Hlen; lia | exact Hb |].
        split; [cbn [List.length]; lia |].
        cbn [firstn map]. rewrite E, Hmap. reflexivity.
    + lia.
Qed.

Lemma tab_inner_spec names buffer len : forall names1,
  tabComplete_inner names buffer len = Some names1 ->
  exists skipped,
    names = skipped ++ names1 /\
    (forall s, In s skipped -> strncasecmp (cstr s) buffer len < 0) /\
    (names1 = [] \/
     exists name next,
       names1 = name :: next /\ strncasecmp (cstr name) buffer len = 0).
Proof.
  induction names as [| name names IH]; intros names1;
    cbn [tabComplete_inner].
  - intros [= <-]. exists []. repeat split; [intros s [] | left; reflexivity].
  - destruct (Z.gtb_spec (strncasecmp (cstr name) buffer len) 0) as [G | G];
      [discriminate |].
    destruct (Z.eqb_spec (strncasecmp (cstr name) buffer len) 0) as [E | E].
    + intros [= <-]. exists []. repeat split; [intros s [] |].
      right. exists name, names. split; [reflexivity | exact E].
    + intros H. destruct (IH names1 H) as (skipped & -> & Hsk & Hhead).
      exists (name :: skipped). repeat split; [| exact Hhead].
      intros s [<- | Hs]; [lia | apply Hsk; exact Hs].
Qed.

Lemma tab_outer_spec buffer passes : forall names len names1 len1,
  tabComplete_outer (S passes) names buffer len = Some (names1, len1) ->
  len1 = (len + S passes)%nat /\
  (exists skipped,
     names = skipped ++ names1 /\
     forall s, In s skipped ->
       exists k, (k < len1)%nat /\ strncasecmp (cstr s) buffer k < 0) /\
  (names1 = [] \/
   exists name next,
     names1 = name :: next /\
     strncasecmp (cstr name) buffer (len1 - 1) = 0).
Proof.
  induction passes as [| passes IH]; intros names len names1 len1;
    cbn [tabComplete_outer];
    destruct (tabComplete_inner names buffer len) as [names2 |] eqn:Ei;
    try discriminate;
    destruct (tab_inner_spec names buffer len names2 Ei)
      as (skipped & -> & Hsk & Hhead).
  - intros [= <- <-]. split; [lia |]. split.
    + exists skipped. split; [reflexivity |].
      intros s Hs. exists len. split; [lia | apply Hsk; exact Hs].
    + replace (S len - 1)%nat with len by lia. exact Hhead.
  - intros H. apply IH in H.
    destruct H as (-> & (skipped2 & -> & Hsk2) & Hhead2).
    split; [lia |]. split; [| exact Hhead2].
    exists (skipped ++ skipped2). split; [apply app_assoc |].
    intros s Hs. apply in_app_or in Hs. destruct Hs as [Hs | Hs].
    + exists len. split; [lia | apply Hsk; exact Hs].
    + destruct (Hsk2 s Hs) as (k & Hk & Hlt). exists k. split; [lia | exact Hlt].
Qed.

(** X19: when [_tabComplete] completes, the text it inserts is the rest
    of a command name of the table whose beginning is the typed text up to
    letter case, followed by a space.  The name is that of the first entry
    of the table that begins with the typed text, every entry before it
    comparing below the typed text, and the entry that follows it in the
    table does not begin with the typed text. *)
Theorem tab_completion_completes_a_command (ARMRun : ARMCore -> ARMCore)
    (buffer : cstring) (inserted : list cstring) :
  _tabComplete ARMRun buffer = CC_REDISPLAY inserted ->
  exists before name after,
    map fst (_debuggerCommands ARMRun) = before ++ name :: after /\
    inserted = [skipn (List.length buffer) (cstr name); cstr " "] /\
    strncasecmp (cstr name) buffer (List.length buffer) = 0 /\
    strsize buffer <= strlen (cstr name) /\
    (forall s, In s before ->
       strncasecmp (cstr s) buffer (List.length buffer) < 0) /\
    (forall s rest, after = s :: rest ->
       strncasecmp (cstr s) buffer (List.length buffer) <> 0) /\
    (no_NUL buffer = true ->
     same_up_to_case buffer (firstn (List.length buffer) (cstr name))).
Proof.
  unfold _tabComplete.
  destruct (tabComplete_outer (S (List.length buffer))
              (map fst (_debuggerCommands ARMRun)) buffer 0)
    as [[names len] |] eqn:Eo; [| discriminate].
  apply tab_outer_spec in Eo.
  destruct Eo as (-> & (before & Htable & Hbefore) & Hhead).
  replace (0 + S (List.length buffer) - 1)%nat with (List.length buffer)
    in * by lia.
  destruct names as [| name after]; [discriminate |].
  destruct Hhead as [Hhead | (name' & next' & [= <- <-] & Hcmp)];
    [discriminate |].
  destruct (match after with
            | [] => false
            | name' :: _ =>
                strncasecmp (cstr name') buffer (List.length buffer) =? 0
            end) eqn:Enext; [discriminate |].
  destruct (Z.leb_spec (Z.of_nat (List.length buffer)) (strlen (cstr name)))
    as [Hlen | Hlen]; [| discriminate].
  intros [= <-]. exists before, name, after.
  split; [exact Htable |]. split; [reflexivity |].
  split; [exact Hcmp |]. split; [exact Hlen |]. split; [| split].
  - intros s Hs. destruct (Hbefore s Hs) as (k & Hk & Hlt).
    rewrite (strncasecmp_extends (cstr s) buffer k); [exact Hlt | lia | lia].
  - intros s rest ->. apply Z.eqb_neq. exact Enext.
  - intros Hnul.
    destruct (strncasecmp_zero (cstr name) (List.length buffer) buffer Hcmp
                (Nat.le_refl _) Hnul) as [_ Hmap].
    unfold same_up_to_case. rewrite Hmap, firstn_all. reflexivity.
Qed.

Lemma tab_completion_completes_a_command_witness :
  exists before name after,
    map fst (_debuggerCommands sample_ARMRun) = before ++ name :: after /\
    [cstr "tinue"; cstr " "]
    = [skipn (List.length (cstr "CON")) (cstr name); cstr " "].
Proof.
  destruct (tab_completion_completes_a_command sample_ARMRun (cstr "CON")
              [cstr "tinue"; cstr " "] eq_refl)
    as (before & name & after & Htable & Hins & _).
  exists before, name, after. split; [exact Htable | exact Hins].
Defined.

Lemma tab_inner_passes names buffer len :
  (forall s, In s names -> strncasecmp (cstr s) buffer len <= 0) ->
  exists names1,
    tabComplete_inner names buffer len = Some names1 /\ incl names1 names.
Proof.
  induction names as [| name names IH]; intros H; cbn [tabComplete_inner].
  - exists []. split; [reflexivity | apply incl_refl].
  - destruct (Z.gtb_spec (strncasecmp (cstr name) buffer len) 0) as [G | G].
    + specialize (H name (or_introl eq_refl)). lia.
    + destruct (strncasecmp (cstr name) buffer len =? 0).
      * exists (name :: names). split; [reflexivity | apply incl_refl].
      * destruct IH as (names1 & -> & Hincl).
        { intros s Hs. apply H. right. exact Hs. }
        exists names1. split; [reflexivity |].
        apply incl_tl. exact Hincl.
Qed.

Lemma tab_inner_runs_out names buffer len :
  (forall s, In s names -> strncasecmp (cstr s) buffer len < 0) ->
  tabComplete_inner names buffer len = Some [].
Proof.
  induction names as [| name names IH]; intros H; cbn [tabComplete_inner].
  - reflexivity.
  - pose proof (H name (or_introl eq_refl)) as Hn.
    destruct (Z.gtb_spec (strncasecmp (cstr name) buffer len) 0); [lia |].
    destruct (Z.eqb_spec (strncasecmp (cstr name) buffer len) 0); [lia |].
    apply IH. intros s Hs. apply H. right. exact Hs.
Qed.

Lemma tab_outer_runs_out buffer passes : forall names len,
  (len + passes = List.length buffer)%nat ->
  (forall s, In s names ->
     strncasecmp (cstr s) buffer (List.length buffer) < 0) ->
  tabComplete_outer (S passes) names buffer len
  = Some ([], S (List.length buffer)).
Proof.
  induction passes as [| passes IH]; intros names len Hlen Hall;
    cbn [tabComplete_outer].
  - replace len with (List.length buffer) by lia.
    rewrite tab_inner_runs_out by exact Hall. reflexivity.
  - destruct (tab_inner_passes names buffer len) as (names1 & Hi & Hincl).
    { intros s Hs. specialize (Hall s Hs).
      destruct (Z.eq_dec (strncasecmp (cstr s) buffer len) 0) as [E | E];
        [lia |].
      rewrite <- (strncasecmp_extends (cstr s) buffer len
                    (List.length buffer) E); lia. }
    rewrite Hi.
    change (match tabComplete_inner names1 buffer (S len) with
            | Some names' => tabComplete_outer passes names' buffer (S (S len))
            | None => None
            end) with (tabComplete_outer (S passes) names1 buffer (S len)).
    apply IH; [lia |].
    intros s Hs. apply Hall. apply Hincl. exact Hs.
Qed.

(** X20: when every command name of the table compares below the typed
    text, as for a text that begins with a letter after [x], the scan of
    [_tabComplete] runs to the terminating entry of the table and the
    function then reads the entry behind it: no status code is defined for
    such a text. *)
Theorem tab_completion_runs_off_the_table (ARMRun : ARMCore -> ARMCore)
    (buffer : cstring) :
  (forall name, In name (map fst (_debuggerCommands ARMRun)) ->
     strncasecmp (cstr name) buffer (List.length buffer) < 0) ->
  _tabComplete ARMRun buffer = TAB_OUT_OF_TABLE.
Proof.
  intros H. unfold _tabComplete.
  rewrite (tab_outer_runs_out buffer (List.length buffer)); [reflexivity | | ].
  - reflexivity.
  - exact H.
Qed.

Lemma tab_completion_runs_off_the_table_witness :
  _tabComplete sample_ARMRun (cstr "zap") = TAB_OUT_OF_TABLE.
Proof.
  apply (tab_completion_runs_off_the_table sample_ARMRun (cstr "zap")).
  cbn [_debuggerCommands map fst In]. intros name H.
  repeat (destruct H as [<- | H]; [reflexivity |]).
  contradiction.
Defined.

(** * Commands with literal arguments *)

(** X21: [p] or [print], in any letter case, followed by literals prints
    one item for each literal, in the order typed, carrying the value of
    the literal as a 32-bit word, then the newline, and leaves the
    debugger unchanged. *)
Theorem print_echoes_literal_values (ARMRun : ARMCore -> ARMCore)
    (d : ARMDebugger) (word : cstring) (ts : list cstring) (vs : list Z) :
  is_word word = true ->
  same_up_to_case word (cstr "p") \/ same_up_to_case word (cstr "print") ->
  ts <> [] -> Forall2 (fun t v => literal_value t = Some v) ts vs ->
  strsize (command_line word (join_tokens ts)) < SIZE_MODULUS ->
  _parse ARMRun d (command_line word (join_tokens ts))
    (to_size_t (strsize (command_line word (join_tokens ts)) - 1))
  = (1, d,
     map (fun v => Printf " %u" [A_int (to_int32 v)]) vs
     ++ [Printf "\n" []]).
Proof.
  intros Hw Hcase Hne Hlit Hsize.
  assert (H : exists name, In (name, _print) (_debuggerCommands ARMRun) /\
                           same_up_to_case word (cstr name)).
  { destruct Hcase as [Hc | Hc]; [exists "p"%string | exists "print"%string];
      (split; [cbn; tauto | exact Hc]). }
  destruct H as (name & Hin & Hc).
  rewrite (parse_literal_command_line ARMRun d name _print word
             ts vs Hin Hw Hc Hne Hlit Hsize).
  unfold _print. cbn [fst snd]. rewrite map_map. reflexivity.
Qed.

Lemma print_echoes_literal_values_witness :
  _parse sample_ARMRun sample_debugger (input_line "p 5 10") 6
  = (1, sample_debugger,
     [Printf " %u" [A_int 5]; Printf " %u" [A_int 10]; Printf "\n" []]).
Proof.
  refine (eq_trans
            (print_echoes_literal_values sample_ARMRun sample_debugger
               (cstr "p") [cstr "5"; cstr "10"] [5; 10] eq_refl
               (or_introl eq_refl) _ _ eq_refl)
            eq_refl).
  - discriminate.
  - repeat constructor.
Defined.

(** X22: [b] or [break], in any letter case, followed by a literal puts
    the value of the literal modulo 2^32 at the head of the breakpoint
    list, prints nothing and changes nothing else; further literals on the
    line are ignored. *)
Theorem break_registers_literal_address (ARMRun : ARMCore -> ARMCore)
    (d : ARMDebugger) (word : cstring) (t : cstring) (v : Z)
    (ts : list cstring) (vs : list Z) :
  is_word word = true ->
  same_up_to_case word (cstr "b") \/ same_up_to_case word (cstr "break") ->
  Forall2 (fun t v => literal_value t = Some v) (t :: ts) (v :: vs) ->
  strsize (command_line word (join_tokens (t :: ts))) < SIZE_MODULUS ->
  _parse ARMRun d (command_line word (join_tokens (t :: ts)))
    (to_size_t (strsize (command_line word (join_tokens (t :: ts))) - 1))
  = (1, set_breakpoints d (v mod 2 ^ 32 :: breakpoints d), []).
Proof.
  intros Hw Hcase Hlit Hsize.
  assert (H : exists name,
            In (name, _setBreakpoint) (_debuggerCommands ARMRun) /\
            same_up_to_case word (cstr name)).
  { destruct Hcase as [Hc | Hc]; [exists "b"%string | exists "break"%string];
      (split; [cbn; tauto | exact Hc]). }
  destruct H as (name & Hin & Hc).
  rewrite (parse_literal_command_line ARMRun d name _setBreakpoint
             word (t :: ts) (v :: vs) Hin Hw Hc);
    [ | discriminate | exact Hlit | exact Hsize ].
  cbn [map _setBreakpoint fst snd]. rewrite to_uint32_to_int32.
  reflexivity.
Qed.

Lemma break_registers_literal_address_witness :
  _parse sample_ARMRun sample_debugger (input_line "b 4294967312 7") 14
  = (1, set_breakpoints sample_debugger [16], []).
Proof.
  refine (eq_trans
            (break_registers_literal_address sample_ARMRun sample_debugger
               (cstr "b") (cstr "4294967312") 4294967312 [cstr "7"] [7]
               eq_refl (or_introl eq_refl) _ eq_refl)
            eq_refl).
  repeat constructor.
Defined.

(** X23: [rb], [rh] and [rw], in any letter case, followed by a literal
    print one line with the value the memory interface of the CPU returns
    for a load of 8, 16 and 32 bits at the value of the literal modulo
    2^32, and leave the debugger unchanged. *)
Theorem read_commands_load_at_literal_address (ARMRun : ARMCore -> ARMCore)
    (d : ARMDebugger) (word : cstring) (t : cstring) (v : Z) :
  is_word word = true -> literal_value t = Some v ->
  strsize (command_line word t) < SIZE_MODULUS ->
  (same_up_to_case word (cstr "rb") ->
   _parse ARMRun d (command_line word t)
     (to_size_t (strsize (command_line word t) - 1))
   = (1, d, [Printf " 0x%02X\n"
               [A_load (memory (cpu d)) 8 (v mod 2 ^ 32)]])) /\
  (same_up_to_case word (cstr "rh") ->
   _parse ARMRun d (command_line word t)
     (to_size_t (strsize (command_line word t) - 1))
   = (1, d, [Printf " 0x%04X\n"
               [A_load (memory (cpu d)) 16 (v mod 2 ^ 32)]])) /\
  (same_up_to_case word (cstr "rw") ->
   _parse ARMRun d (command_line word t)
     (to_size_t (strsize (command_line word t) - 1))
   = (1, d, [Printf " 0x%08X\n"
               [A_load (memory (cpu d)) 32 (v mod 2 ^ 32)]])).
Proof.
  intros Hw Hv Hsize.
  assert (Hlit : Forall2 (fun t v => literal_value t = Some v) [t] [v])
    by (repeat constructor; exact Hv).
  change t with (join_tokens [t]) in Hsize |- *.
  split; [| split]; intros Hc.
  - rewrite (parse_literal_command_line ARMRun d "rb" _readByte
               word [t] [v]);
      [ | cbn; tauto | exact Hw | exact Hc | discriminate | exact Hlit
        | exact Hsize ].
    cbn [map _readByte read_memory fst snd]. rewrite to_uint32_to_int32.
    reflexivity.
  - rewrite (parse_literal_command_line ARMRun d "rh"
               _readHalfword word [t] [v]);
      [ | cbn; tauto | exact Hw | exact Hc | discriminate | exact Hlit
        | exact Hsize ].
    cbn [map _readHalfword read_memory fst snd]. rewrite to_uint32_to_int32.
    reflexivity.
  - rewrite (parse_literal_command_line ARMRun d "rw" _readWord
               word [t] [v]);
      [ | cbn; tauto | exact Hw | exact Hc | discriminate | exact Hlit
        | exact Hsize ].
    cbn [map _readWord read_memory fst snd]. rewrite to_uint32_to_int32.
    reflexivity.
Qed.

Lemma read_commands_load_at_literal_address_witness :
  _parse sample_ARMRun sample_debugger (input_line "RW $3000000") 11
  = (1, sample_debugger,
     [Printf " 0x%08X\n" [A_load (MEMORY_OTHER 0) 32 50331648]]).
Proof.
  destruct (read_commands_load_at_literal_address sample_ARMRun
              sample_debugger (cstr "RW") (cstr "$3000000") 50331648
              eq_refl eq_refl eq_refl) as (_ & _ & H).
  exact (eq_trans (H eq_refl) eq_refl).
Defined.

(** X24: [c] or [continue], in any letter case on a line of its own while
    the debugger is Paused, sets the state to Running and ends the loop of
    [_commandLine] at once: the lines that follow stay unread and nothing
    is printed; the line enters the history. *)
Theorem continue_leaves_the_command_loop (ARMRun : ARMCore -> ARMCore)
    (d : ARMDebugger) (word : cstring) (rest : list cstring) :
  state d = DEBUGGER_PAUSED -> is_word word = true ->
  same_up_to_case word (cstr "c") \/
  same_up_to_case word (cstr "continue") ->
  commandLine_while ARMRun (bare_line word :: rest) d
  = (rest,
     set_histate (set_state d DEBUGGER_RUNNING)
       (history_enter (histate d) (bare_line word)),
     []).
Proof.
  intros Hst Hw Hcase.
  assert (Hparse :
    _parse ARMRun d (bare_line word)
      (to_size_t (strsize (bare_line word) - 1))
    = (1, set_state d DEBUGGER_RUNNING, [])).
  { destruct Hcase as [Hcase | Hcase].
    - apply (parse_bare_line ARMRun d "c" _continue word);
        [cbn; tauto | exact Hw | exact Hcase |].
      apply (short_word_size word "c" Hcase). cbn. lia.
    - apply (parse_bare_line ARMRun d "continue" _continue word);
        [cbn; tauto | exact Hw | exact Hcase |].
      apply (short_word_size word "continue" Hcase). cbn. lia. }
  assert (Hfirst : Ascii.eqb (char_at0 (bare_line word)) LF = false).
  { destruct word as [| c word].
    - destruct Hcase as [H | H]; discriminate H.
    - cbn [bare_line app char_at0].
      destruct (Ascii.eqb c LF) eqn:E; [| reflexivity].
      apply Ascii.eqb_eq in E. subst c.
      destruct Hcase as [H | H]; discriminate H. }
  cbn [commandLine_while]. rewrite Hst.
  unfold commandLine_body. fold (strsize (bare_line word)).
  rewrite Hfirst, Hparse. cbn [Z.eqb negb].
  rewrite commandLine_while_idle by discriminate.
  reflexivity.
Qed.

Lemma continue_leaves_the_command_loop_witness :
  commandLine_while sample_ARMRun [input_line "C"; input_line "q"]
    sample_debugger
  = ([input_line "q"],
     set_histate (set_state sample_debugger DEBUGGER_RUNNING)
       [input_line "C"],
     []).
Proof.
  apply (continue_leaves_the_command_loop sample_ARMRun sample_debugger
           (cstr "C") [input_line "q"]).
  - reflexivity.
  - reflexivity.
  - left. reflexivity.
Defined.
